(** * tcolour: colours, blend modes and gradients

    A shallow embedding of [src/colour.rs] and [src/gradient.rs].

    Rust's [f64] is modelled by IEEE-754 binary64 as specified in
    [Floats.SpecFloat] (precision 53, maximal exponent 1024), round to
    nearest even.  The specification float carries no NaN payload, and
    Rust's [PartialEq]/[PartialOrd] on [f64] are the IEEE comparisons
    [SFcompare], [SFeqb] and [SFltb].  A Rust [panic] is [None]. *)

From Corelib Require Import Floats.SpecFloat Floats.FloatClass.
From Stdlib Require Import ZArith Bool List Lia.
From Stdlib Require String.
Import ListNotations.

Module F64.
Definition prec : Z := 53.
Definition emax : Z := 1024.

Definition f64 := spec_float.

Definition add (x y : f64) : f64 := SFadd prec emax x y.
Definition sub (x y : f64) : f64 := SFsub prec emax x y.
Definition mul (x y : f64) : f64 := SFmul prec emax x y.
Definition div (x y : f64) : f64 := SFdiv prec emax x y.

(** [PartialOrd] on [f64]: [x < y], [x > y], [x == y]. *)
Definition ltb (x y : f64) : bool := SFltb x y.
Definition gtb (x y : f64) : bool :=
  match SFcompare x y with Some Gt => true | _ => false end.
Definition eqb (x y : f64) : bool := SFeqb x y.
Definition leb (x y : f64) : bool := SFleb x y.

Definition is_nan (x : f64) : bool :=
  match x with S754_nan => true | _ => false end.

(** [f64::is_normal]: neither zero, subnormal, infinite nor NaN. *)
Definition is_normal (x : f64) : bool :=
  match SFclassify prec x with
  | PNormal | NNormal => true
  | _ => false
  end.

(** [f64::min] and [f64::max]: a NaN argument yields the other one. *)
Definition min (x y : f64) : f64 :=
  if is_nan x then y else if is_nan y then x else if ltb x y then x else y.
Definition max (x y : f64) : f64 :=
  if is_nan x then y else if is_nan y then x else if gtb x y then x else y.

(** Literals: an integer, rounded, and a quotient of two integers. *)
Definition of_Z (n : Z) : f64 := binary_normalize prec emax n 0 false.
Definition of_frac (n d : Z) : f64 := div (of_Z n) (of_Z d).

Definition zero : f64 := S754_zero false.
Definition one : f64 := of_Z 1.
Definition two : f64 := of_Z 2.
Definition half : f64 := of_frac 1 2.
Definition nan : f64 := S754_nan.
Definition infinity : f64 := S754_infinity false.

(** Values a Rust [f64] can hold. *)
Definition valid (x : f64) : bool := valid_binary prec emax x.

(** [f64::clamp]: [if self < min { self = min }], then
    [if self > max { self = max }].  Its assertion [min <= max] holds at
    the only calls of this crate, [v.clamp(0f64, 1f64)]. *)
Definition clamp (x lo hi : f64) : f64 :=
  let x1 := if ltb x lo then lo else x in
  if gtb x1 hi then hi else x1.

(** [f64::is_finite]. *)
Definition is_finite (x : f64) : bool :=
  match x with S754_zero _ | S754_finite _ _ _ => true | _ => false end.

(** The cast [x as u8]: truncation toward zero, saturating at [0] and
    [255]; NaN casts to [0].  A [u8] is a [Z] in [0, 255], and
    [n as f64] is the exact [of_Z n]. *)
Definition to_u8 (x : f64) : Z :=
  match x with
  | S754_finite false m e => Z.min 255 (Z.shiftl (Zpos m) e)
  | S754_infinity false => 255
  | _ => 0
  end.

(** [x] with a negative zero read as [+0.0]. *)
Definition positive_zero (x : f64) : f64 :=
  match x with S754_zero _ => zero | _ => x end.
End F64.

Import F64.

(** ** [Colour] (src/colour.rs) *)

Record Colour := mkColour { r : f64; g : f64; b : f64; a : f64 }.

Inductive BlendMode :=
| Normal | Multiply | Divide | Addition | Subtract
| Screen | Overlay | HardLight | SoftLight | Darken | Lighten.

Module Colour.
Definition new (r g b a : f64) : Colour := mkColour r g b a.
Definition solid (r g b : f64) : Colour := new r g b one.
Definition grey (v : f64) : Colour := solid v v v.
Definition red (v : f64) : Colour := solid v zero zero.
Definition green (v : f64) : Colour := solid zero v zero.
Definition blue (v : f64) : Colour := solid zero zero v.
Definition transparent : Colour := new zero zero zero zero.
Definition with_alpha (c : Colour) (alpha : f64) : Colour :=
  new (r c) (g c) (b c) alpha.

(** The operators of [impl_op_ex!]: a scalar is broadcast to R, G, B;
    two colours combine R, G, B; the alpha of the left colour operand
    is kept. *)
Definition add_f (c : Colour) (s : f64) : Colour :=
  new (add (r c) s) (add (g c) s) (add (b c) s) (a c).
Definition mul_f (c : Colour) (s : f64) : Colour :=
  new (mul (r c) s) (mul (g c) s) (mul (b c) s) (a c).
Definition add_c (x y : Colour) : Colour :=
  new (add (r x) (r y)) (add (g x) (g y)) (add (b x) (b y)) (a x).
Definition mul_c (x y : Colour) : Colour :=
  new (mul (r x) (r y)) (mul (g x) (g y)) (mul (b x) (b y)) (a x).
Definition sub_f (c : Colour) (s : f64) : Colour :=
  new (sub (r c) s) (sub (g c) s) (sub (b c) s) (a c).
Definition f_sub (s : f64) (c : Colour) : Colour :=
  new (sub s (r c)) (sub s (g c)) (sub s (b c)) (a c).
Definition sub_c (x y : Colour) : Colour :=
  new (sub (r x) (r y)) (sub (g x) (g y)) (sub (b x) (b y)) (a x).
Definition div_f (c : Colour) (s : f64) : Colour :=
  new (div (r c) s) (div (g c) s) (div (b c) s) (a c).
Definition f_div (s : f64) (c : Colour) : Colour :=
  new (div s (r c)) (div s (g c)) (div s (b c)) (a c).
Definition div_c (x y : Colour) : Colour :=
  new (div (r x) (r y)) (div (g x) (g y)) (div (b x) (b y)) (a x).

(** [inverted]: [1f64 - self]; unary [-] on a colour. *)
Definition inverted (c : Colour) : Colour := f_sub one c.
Definition neg (c : Colour) : Colour := inverted c.

Definition map (c : Colour) (f : f64 -> f64) : Colour :=
  new (f (r c)) (f (g c)) (f (b c)) (a c).
Definition map_rgba (c : Colour) (f : f64 -> f64) : Colour :=
  new (f (r c)) (f (g c)) (f (b c)) (f (a c)).
Definition map_with (x y : Colour) (f : f64 -> f64 -> f64) : Colour :=
  new (f (r x) (r y)) (f (g x) (g y)) (f (b x) (b y)) (a x).

(** [cleaned]: [self.map_rgba(|v| if !v.is_normal() { 1f64 } else { v })]. *)
Definition clean_value (v : f64) : f64 := if negb (is_normal v) then one else v.
Definition cleaned (c : Colour) : Colour := map_rgba c clean_value.

(** [apply_rgba] and [clean]: in-place updates, modelled by passing the
    receiver's state through the closure, one field after the other. *)
Definition apply_rgba (c : Colour) (f : f64 -> f64) : Colour :=
  let c1 := mkColour (f (r c)) (g c) (b c) (a c) in
  let c2 := mkColour (r c1) (f (g c1)) (b c1) (a c1) in
  let c3 := mkColour (r c2) (g c2) (f (b c2)) (a c2) in
  mkColour (r c3) (g c3) (b c3) (f (a c3)).
Definition clean (c : Colour) : Colour :=
  apply_rgba c (fun v => if negb (is_normal v) then one else v).

Definition overlay_value (base blend : f64) : f64 :=
  if ltb base half then mul (mul two blend) base
  else sub one (mul (mul two (sub one base)) (sub one blend)).

(** The compositing step of [blend]: [self] is the base layer, [other]
    the blend layer, [blended] the cleaned channel blend. *)
Definition composite (self other blended : Colour) : Colour :=
  let alpha_composite := add (a other) (mul (a self) (sub one (a other))) in
  with_alpha
    (div_f (add_c (mul_f blended (a other))
                  (mul_f (mul_f self (a self)) (sub one (a other))))
           alpha_composite)
    alpha_composite.

Definition overlay_raw (self other : Colour) : Colour :=
  map_with self other overlay_value.

(** The [match] of [blend]; the [HardLight] arm is
    [other.blend(self, BlendMode::Overlay)] (on the dereferenced [self]), a whole [blend] call,
    written out here as the body of [blend] at [Overlay]
    (see [blend_raw_HardLight]). *)
Definition blend_raw (self other : Colour) (m : BlendMode) : Colour :=
  match m with
  | Normal => other
  | Addition => add_c self other
  | Subtract => sub_c self other
  | Multiply => mul_c self other
  | Divide => div_c self other
  | Darken => map_with self other min
  | Lighten => map_with self other max
  | Screen => neg (mul_c (neg self) (neg other))
  | Overlay => overlay_raw self other
  | HardLight => composite other self (cleaned (overlay_raw other self))
  | SoftLight => add_c (mul_c self (neg (mul_c (neg other) (neg other))))
                       (mul_c (neg self) other)
  end.

Definition blend (self other : Colour) (m : BlendMode) : Colour :=
  let blended := cleaned (blend_raw self other m) in
  composite self other blended.

Definition blend_onto (self other : Colour) (m : BlendMode) : Colour :=
  blend other self m.
Definition compose (self other : Colour) : Colour := blend self other Normal.

(** [lerp]: [self + (other - self) * t]. *)
Definition lerp (self other : Colour) (t : f64) : Colour :=
  add_c self (mul_f (sub_c other self) t).

Definition compose_onto (self other : Colour) : Colour := blend_onto self other Normal.

(** [apply]: the in-place update of R, G and B, one after the other. *)
Definition apply (c : Colour) (f : f64 -> f64) : Colour :=
  let c1 := mkColour (f (r c)) (g c) (b c) (a c) in
  let c2 := mkColour (r c1) (f (g c1)) (b c1) (a c1) in
  mkColour (r c2) (g c2) (f (b c2)) (a c2).

Definition map_rgba_with (x y : Colour) (f : f64 -> f64 -> f64) : Colour :=
  new (f (r x) (r y)) (f (g x) (g y)) (f (b x) (b y)) (f (a x) (a y)).

Definition all (c : Colour) (p : f64 -> bool) : bool := p (r c) && p (g c) && p (b c).
Definition all_rgba (c : Colour) (p : f64 -> bool) : bool := all c p && p (a c).
Definition all_with (x y : Colour) (p : f64 -> f64 -> bool) : bool :=
  p (r x) (r y) && p (g x) (g y) && p (b x) (b y).
Definition all_rgba_with (x y : Colour) (p : f64 -> f64 -> bool) : bool :=
  all_with x y p && p (a x) (a y).

(** [max_channel]: [self.r.max(self.g.max(self.b.max(self.a)))]. *)
Definition max_channel (c : Colour) : f64 := max (r c) (max (g c) (max (b c) (a c))).
Definition min_channel (c : Colour) : f64 := min (r c) (min (g c) (min (b c) (a c))).

(** [clamped] and the in-place [clamp]: [v.clamp(0f64, 1f64)] on all four
    channels. *)
Definition clamped (c : Colour) : Colour := map_rgba c (fun v => F64.clamp v zero one).
Definition clamp (c : Colour) : Colour := apply_rgba c (fun v => F64.clamp v zero one).

(** [invert]: [*self = self.inverted()]. *)
Definition invert (c : Colour) : Colour := inverted c.

(** [normalise]: with [max = max_channel.max(1)] and
    [min = min_channel.min(0)], returns early when [min >= 0 && max <= 1],
    else maps every channel [v] (alpha included) to
    [(v - min) / (max - min)]; [normalised] runs it on a copy. *)
Definition normalise (c : Colour) : Colour :=
  let mx := max (max_channel c) one in
  let mn := min (min_channel c) zero in
  if leb zero mn && leb mx one then c
  else apply_rgba c (fun v => div (sub v mn) (sub mx mn)).
Definition normalised (c : Colour) : Colour := normalise c.

(** [from_u8]: [Self::solid(r as f64 / 255f64, ...)]; [from_u8_rgba] sets
    the alpha to [a as f64 / 255f64]. *)
Definition from_u8 (r g b : Z) : Colour :=
  solid (div (of_Z r) (of_Z 255)) (div (of_Z g) (of_Z 255)) (div (of_Z b) (of_Z 255)).
Definition from_u8_rgba (r g b a : Z) : Colour :=
  with_alpha (from_u8 r g b) (div (of_Z a) (of_Z 255)).

(** [as_u8] and [as_u8_rgba]: [(self.r * 255f64) as u8], ... *)
Definition as_u8 (c : Colour) : Z * Z * Z :=
  (to_u8 (mul (r c) (of_Z 255)), to_u8 (mul (g c) (of_Z 255)), to_u8 (mul (b c) (of_Z 255))).
Definition as_u8_rgba (c : Colour) : Z * Z * Z * Z :=
  (to_u8 (mul (r c) (of_Z 255)), to_u8 (mul (g c) (of_Z 255)),
   to_u8 (mul (b c) (of_Z 255)), to_u8 (mul (a c) (of_Z 255))).

Lemma blend_raw_HardLight (self other : Colour) :
  blend_raw self other HardLight = blend other self Overlay.
Proof. reflexivity. Qed.
End Colour.

(** [#[derive(PartialEq)]] on [Colour]: field-wise IEEE equality. *)
Definition colour_eqb (x y : Colour) : bool :=
  F64.eqb (r x) (r y) && F64.eqb (g x) (g y) && F64.eqb (b x) (b y) && F64.eqb (a x) (a y).

(** ** [Gradient] (src/gradient.rs) *)

Definition GradientStop : Type := (f64 * Colour)%type.
Definition Gradient : Type := list GradientStop.

Module Gradient.
(** [.iter().enumerate().skip_while(|(_, (v, _))| *v < t).next()]:
    the index of the first stop whose position is not less than [t]. *)
Fixpoint skip_while_less (l : Gradient) (t : f64) (i : nat) : option nat :=
  match l with
  | [] => None
  | (v, _) :: rest => if F64.ltb v t then skip_while_less rest t (S i) else Some i
  end.

(** [self.0[index].1 = colour] *)
Fixpoint set_colour (l : Gradient) (i : nat) (c : Colour) : Gradient :=
  match l, i with
  | [], _ => []
  | (v, _) :: rest, O => (v, c) :: rest
  | s :: rest, S i' => s :: set_colour rest i' c
  end.

(** [Vec::insert(index, x)], for [index <= len]. *)
Definition insert_at (i : nat) (x : GradientStop) (l : Gradient) : Gradient :=
  firstn i l ++ x :: skipn i l.

(** [insert]; [None] where Rust's indexing [self.0[index]] would panic. *)
Definition insert (self : Gradient) (t : f64) (colour : Colour) : option Gradient :=
  match skip_while_less self t 0 with
  | Some index =>
      match nth_error self index with
      | Some (v, _) =>
          if F64.eqb v t then Some (set_colour self index colour)
          else Some (insert_at index (t, colour) self)
      | None => None
      end
  | None => Some (self ++ [(t, colour)])
  end.

(** [Vec::last] *)
Fixpoint vec_last (l : Gradient) : option GradientStop :=
  match l with
  | [] => None
  | [x] => Some x
  | _ :: rest => vec_last rest
  end.

(** The [scan] / [find_map] of [subgradient]: [prev] is the scan state. *)
Fixpoint scan_find (prev : option GradientStop) (l : Gradient) (t : f64)
  : option (GradientStop * GradientStop) :=
  match l with
  | [] => None
  | curr :: rest =>
      if F64.gtb (fst curr) t then
        Some (match prev with Some p => p | None => curr end, curr)
      else scan_find (Some curr) rest t
  end.

(** [subgradient]; [None] is the panic of the final [.unwrap()]. *)
Definition subgradient (self : Gradient) (t : f64)
  : option (GradientStop * GradientStop) :=
  match scan_find None self t with
  | Some p => Some p
  | None => option_map (fun last => (last, last)) (vec_last self)
  end.

Definition interpolate (self : Gradient) (t : f64)
  (interpolator : Colour -> Colour -> f64 -> Colour) : option Colour :=
  match subgradient self t with
  | None => None
  | Some ((t_from, from), (t_to, to)) =>
      let normalised_t := div (sub t t_from) (sub t_to t_from) in
      Some (interpolator from to
              (if negb (is_normal normalised_t) then one else normalised_t))
  end.

(** The closure passed by [sample]. *)
Definition sample_interpolator (from to : Colour) (t : f64) : Colour :=
  Colour.with_alpha (Colour.add_c from (Colour.mul_f (Colour.sub_c to from) t))
                    (add (a from) (mul (sub (a to) (a from)) t)).

Definition sample (self : Gradient) (t : f64) : option Colour :=
  interpolate self t sample_interpolator.

Definition select (self : Gradient) (t : f64) : option Colour :=
  option_map (fun p => snd (fst p)) (subgradient self t).

Definition select_upper (self : Gradient) (t : f64) : option Colour :=
  option_map (fun p => snd (snd p)) (subgradient self t).

(** No stop sits at a NaN position. *)
Definition no_nan_positions (l : Gradient) : bool :=
  forallb (fun s => negb (is_nan (fst s))) l.

(** The invariant of a gradient: positions strictly ascending. *)
Fixpoint sorted (l : Gradient) : bool :=
  match l with
  | (p1, _) :: (((p2, _) :: _) as rest) => F64.ltb p1 p2 && sorted rest
  | _ => true
  end.
End Gradient.

(** ** The spec's reading of [HardLight]

    Follows the words of the spec, for comparison with [Colour.blend]:
    the two-phase blend whose channel phase is the [Overlay] channel
    formula with the roles swapped, i.e. per channel
    [2*a*b] if [b < 0.5], else [1 - 2*(1-b)*(1-a)]. *)
Definition hardlight_as_specified (base layer : Colour) : Colour :=
  Colour.composite base layer
    (Colour.cleaned (Colour.map_with base layer (fun x y => Colour.overlay_value y x))).

(** ** Conversions (the [From], [TryFrom] and [Into] impls of src/colour.rs) *)

Module Conversions.
Import String.StringSyntax.
Local Open Scope string_scope.
Import Colour.

Inductive result (T E : Type) := Ok (v : T) | Err (e : E).
Arguments Ok {T E} v.
Arguments Err {T E} e.

Definition too_many : String.string := "There are too many elements.".
Definition not_enough : String.string := "There are not enough elements.".

(** [TryFrom<&[f64]>] and [TryFrom<Vec<f64>>] (the same body).  The
    indexing [value[i]] is in bounds on every branch that reaches it, so
    [nth]'s default is never read. *)
Definition try_from_f64s (value : list f64) : result Colour String.string :=
  if Nat.ltb 4 (length value) then Err too_many
  else if Nat.ltb (length value) 3 then Err not_enough
  else if Nat.eqb (length value) 3 then
    Ok (solid (nth 0 value zero) (nth 1 value zero) (nth 2 value zero))
  else Ok (new (nth 0 value zero) (nth 1 value zero) (nth 2 value zero) (nth 3 value zero)).

(** [TryFrom<&[u8]>] and [TryFrom<Vec<u8>>]. *)
Definition try_from_u8s (value : list Z) : result Colour String.string :=
  if Nat.ltb 4 (length value) then Err too_many
  else if Nat.ltb (length value) 3 then Err not_enough
  else if Nat.eqb (length value) 3 then
    Ok (from_u8 (nth 0 value 0%Z) (nth 1 value 0%Z) (nth 2 value 0%Z))
  else Ok (from_u8_rgba (nth 0 value 0%Z) (nth 1 value 0%Z) (nth 2 value 0%Z) (nth 3 value 0%Z)).

(** [Into<Vec<f64>>] and [Into<Vec<u8>>]. *)
Definition into_vec_f64 (c : Colour) : list f64 := [r c; g c; b c; a c].
Definition into_vec_u8 (c : Colour) : list Z :=
  let '(r, g, b, a) := as_u8_rgba c in [r; g; b; a].

(** [ratatui::style::Color], the variants this crate names, and [Reset]
    for the others (the [_] arm). *)
Inductive Color :=
| Reset | Black | Red | Green | Yellow | Blue | Magenta | Cyan | Gray | DarkGray
| LightRed | LightGreen | LightYellow | LightBlue | LightMagenta | LightCyan | White
| Rgb (r g b : Z) | Indexed (index : Z).

(** [u8] arithmetic with overflow checks (debug builds): an overflow
    panics, [None]. *)
Definition u8_checked (n : Z) : option Z :=
  if (0 <=? n)%Z && (n <=? 255)%Z then Some n else None.
Definition u8_mul (x y : Z) : option Z := u8_checked (x * y).
Definition u8_add (x y : Z) : option Z := u8_checked (x + y).
Definition u8_sub (x y : Z) : option Z := u8_checked (x - y).

Definition from_u8_checked (r g b : option Z) : option Colour :=
  match r, g, b with
  | Some r, Some g, Some b => Some (from_u8 r g b)
  | _, _, _ => None
  end.

Definition bind_u8 (x : option Z) (k : Z -> option Z) : option Z :=
  match x with Some v => k v | None => None end.

(** [From<ratatui::style::Color> for Colour]. *)
Definition from_color (colour : Color) : option Colour :=
  match colour with
  | Black => Some (from_u8 0 0 0)
  | Red => Some (from_u8 255 0 0)
  | Green => Some (from_u8 0 255 0)
  | Yellow => Some (from_u8 255 255 0)
  | Blue => Some (from_u8 0 0 255)
  | Magenta => Some (from_u8 255 0 255)
  | Cyan => Some (from_u8 0 255 255)
  | Gray => Some (from_u8 169 169 169)
  | DarkGray => Some (from_u8 128 128 128)
  | LightRed => Some (from_u8 255 128 128)
  | LightGreen => Some (from_u8 128 255 128)
  | LightYellow => Some (from_u8 255 255 128)
  | LightBlue => Some (from_u8 128 128 255)
  | LightMagenta => Some (from_u8 255 128 255)
  | LightCyan => Some (from_u8 128 255 255)
  | White => Some (from_u8 255 255 255)
  | Rgb r g b => Some (from_u8 r g b)
  | Indexed index =>
      if (index <=? 6)%Z then
        from_u8_checked (u8_mul (Z.land index 4) 255)
                        (u8_mul (Z.land index 2) 255)
                        (u8_mul (Z.land index 1) 255)
      else if (index =? 7)%Z then Some (from_u8 169 169 169)
      else if (index <=? 15)%Z then
        from_u8_checked (bind_u8 (u8_mul (Z.land index 4) 127) (fun x => u8_add x 128))
                        (bind_u8 (u8_mul (Z.land index 2) 127) (fun x => u8_add x 128))
                        (bind_u8 (u8_mul (Z.land index 1) 127) (fun x => u8_add x 128))
      else if (index <? 232)%Z then
        match u8_sub index 16 with
        | None => None
        | Some index =>
            from_u8_checked (u8_mul (index / 36) 51)
                            (u8_mul ((index mod 36) / 6) 51)
                            (u8_mul (index mod 6) 51)
        end
      else
        match bind_u8 (bind_u8 (u8_sub index 232) (fun d => u8_mul d 10)) (fun d => u8_add 8 d) with
        | None => None
        | Some gray => Some (from_u8 gray gray gray)
        end
  | Reset => Some (from_u8 0 0 0)
  end.

(** [Into<ratatui::style::Color> for Colour]: [Rgb] of [as_u8]. *)
Definition into_color (c : Colour) : Color :=
  let '(r, g, b) := as_u8 c in Rgb r g b.
End Conversions.

(** ** Concrete values used by the examples *)

Module Examples.
(** The gradient of the repository's tests: stops at 0.5, 0.7, 0.8. *)
Definition test_gradient : Gradient :=
  [(of_frac 5 10, Colour.solid one zero zero);
   (of_frac 7 10, Colour.solid zero one zero);
   (of_frac 8 10, Colour.solid zero zero one)].

(** [2^-60]: a normal [f64] far below the precision of [1.0]. *)
Definition tiny : f64 := of_frac 1 (2 ^ 60).

Definition two_stops : Gradient :=
  [(zero, Colour.red one); (one, Colour.blue one)].

Definition fading : Gradient :=
  [(zero, Colour.grey one); (one, Colour.grey tiny)].
End Examples.

(** ** Facts on binary64 comparison *)

Module F64Facts.
(** A key ordering every non-NaN float lexicographically as [SFcompare]
    does. *)
Definition key (x : f64) : Z * Z * Z :=
  match x with
  | S754_infinity true => (0, 0, 0)
  | S754_finite true m e => (1, - e, Z.neg m)
  | S754_zero _ => (2, 0, 0)
  | S754_finite false m e => (3, e, Z.pos m)
  | S754_infinity false => (4, 0, 0)
  | S754_nan => (0, 0, 0)
  end%Z.

Definition lexcmp (k1 k2 : Z * Z * Z) : comparison :=
  let '(a1, b1, c1) := k1 in
  let '(a2, b2, c2) := k2 in
  match Z.compare a1 a2 with
  | Eq => match Z.compare b1 b2 with Eq => Z.compare c1 c2 | o => o end
  | o => o
  end.

Lemma compare_key (x y : f64) :
  is_nan x = false -> is_nan y = false ->
  SFcompare x y = Some (lexcmp (key x) (key y)).
Proof.
  intros Hx Hy.
  destruct x as [sx|sx| |sx mx ex]; try discriminate;
  destruct y as [sy|sy| |sy my ey]; try discriminate;
  try destruct sx; try destruct sy; simpl; try reflexivity.
  - rewrite Z.compare_opp. rewrite (Z.compare_antisym ey ex).
    destruct (Z.compare ey ex); reflexivity.
Qed.

Lemma lexcmp_Lt (a1 b1 c1 a2 b2 c2 : Z) :
  lexcmp (a1, b1, c1) (a2, b2, c2) = Lt <->
  (a1 < a2 \/ (a1 = a2 /\ (b1 < b2 \/ (b1 = b2 /\ c1 < c2))))%Z.
Proof.
  simpl.
  destruct (Z.compare_spec a1 a2); [|split; [lia|reflexivity]|split; [discriminate|lia]].
  destruct (Z.compare_spec b1 b2); [|split; [lia|reflexivity]|split; [discriminate|lia]].
  destruct (Z.compare_spec c1 c2); [split; [discriminate|lia]|split; [lia|reflexivity]|split; [discriminate|lia]].
Qed.

Lemma lexcmp_Eq (k1 k2 : Z * Z * Z) : lexcmp k1 k2 = Eq <-> k1 = k2.
Proof.
  destruct k1 as [[a1 b1] c1], k2 as [[a2 b2] c2]; simpl.
  destruct (Z.compare_spec a1 a2); [|split; [discriminate|intros E; inversion E; lia]..].
  destruct (Z.compare_spec b1 b2); [|split; [discriminate|intros E; inversion E; lia]..].
  destruct (Z.compare_spec c1 c2); [subst; split; reflexivity|split; [discriminate|intros E; inversion E; lia]..].
Qed.

Lemma lexcmp_antisym (k1 k2 : Z * Z * Z) :
  lexcmp k2 k1 = CompOpp (lexcmp k1 k2).
Proof.
  destruct k1 as [[a1 b1] c1], k2 as [[a2 b2] c2]; simpl.
  rewrite (Z.compare_antisym a1 a2), (Z.compare_antisym b1 b2), (Z.compare_antisym c1 c2).
  destruct (Z.compare a1 a2), (Z.compare b1 b2); reflexivity.
Qed.

Lemma lexcmp_trans (k1 k2 k3 : Z * Z * Z) :
  lexcmp k1 k2 = Lt -> lexcmp k2 k3 = Lt -> lexcmp k1 k3 = Lt.
Proof.
  destruct k1 as [[a1 b1] c1], k2 as [[a2 b2] c2], k3 as [[a3 b3] c3].
  rewrite !lexcmp_Lt. lia.
Qed.

Lemma ltb_not_nan (x y : f64) :
  F64.ltb x y = true -> is_nan x = false /\ is_nan y = false.
Proof. destruct x, y; try discriminate; auto. Qed.

Lemma ltb_key (x y : f64) :
  F64.ltb x y = true <->
  is_nan x = false /\ is_nan y = false /\ lexcmp (key x) (key y) = Lt.
Proof.
  split.
  - intros H. destruct (ltb_not_nan x y H) as [Hx Hy].
    unfold F64.ltb, SFltb in H. rewrite compare_key in H by assumption.
    repeat split; auto. destruct (lexcmp _ _); congruence.
  - intros (Hx & Hy & H). unfold F64.ltb, SFltb.
    rewrite compare_key by assumption. now rewrite H.
Qed.

Lemma ltb_trans (x y z : f64) :
  F64.ltb x y = true -> F64.ltb y z = true -> F64.ltb x z = true.
Proof.
  rewrite !ltb_key. intros (? & ? & H1) (? & ? & H2).
  repeat split; auto. eapply lexcmp_trans; eauto.
Qed.

Lemma ltb_irrefl (x : f64) : F64.ltb x x = false.
Proof.
  destruct (F64.ltb x x) eqn:E; [|reflexivity].
  apply ltb_key in E as (_ & _ & E).
  destruct (key x) as [[a1 b1] c1]. apply lexcmp_Lt in E. lia.
Qed.

Lemma gtb_ltb (x y : f64) : F64.gtb x y = F64.ltb y x.
Proof.
  destruct (is_nan x) eqn:Hx; [destruct x; try discriminate; destruct y; reflexivity|].
  destruct (is_nan y) eqn:Hy; [destruct y; try discriminate; destruct x; reflexivity|].
  unfold F64.gtb, F64.ltb, SFltb.
  rewrite !compare_key by assumption.
  rewrite (lexcmp_antisym (key y) (key x)).
  destruct (lexcmp (key y) (key x)); reflexivity.
Qed.

Lemma eqb_key (x y : f64) :
  F64.eqb x y = true <->
  is_nan x = false /\ is_nan y = false /\ key x = key y.
Proof.
  split.
  - intros H. assert (is_nan x = false /\ is_nan y = false) as [Hx Hy]
      by (destruct x, y; try discriminate; auto).
    unfold F64.eqb, SFeqb in H. rewrite compare_key in H by assumption.
    repeat split; auto. apply lexcmp_Eq. destruct (lexcmp _ _); congruence.
  - intros (Hx & Hy & H). unfold F64.eqb, SFeqb.
    rewrite compare_key by assumption. now rewrite (proj2 (lexcmp_Eq _ _) H).
Qed.

(** Trichotomy off NaN. *)
Lemma ltb_total (x y : f64) :
  is_nan x = false -> is_nan y = false ->
  F64.ltb x y = false -> F64.eqb x y = false -> F64.ltb y x = true.
Proof.
  intros Hx Hy H1 H2. unfold F64.ltb, F64.eqb, SFltb, SFeqb in *.
  rewrite (compare_key x y Hx Hy) in H1, H2.
  rewrite (compare_key y x Hy Hx), lexcmp_antisym.
  destruct (lexcmp (key x) (key y)); simpl; congruence.
Qed.

Lemma ltb_eqb_trans (x y z : f64) :
  F64.ltb x y = true -> F64.eqb y z = true -> F64.ltb x z = true.
Proof.
  rewrite ltb_key, ltb_key, eqb_key. intros (? & ? & H1) (? & ? & H2).
  repeat split; auto. now rewrite <- H2.
Qed.

Lemma leb_cases (x y : f64) :
  F64.leb x y = true -> F64.ltb x y = true \/ F64.eqb x y = true.
Proof.
  unfold F64.leb, F64.ltb, F64.eqb, SFleb, SFltb, SFeqb.
  destruct (SFcompare x y) as [[]|]; auto.
Qed.

Lemma eqb_ltb_trans (x y z : f64) :
  F64.eqb x y = true -> F64.ltb y z = true -> F64.ltb x z = true.
Proof.
  rewrite ltb_key, ltb_key, eqb_key. intros (? & ? & H1) (? & ? & H2).
  repeat split; auto. now rewrite H1.
Qed.

Lemma not_leb_ltb (x y : f64) :
  is_nan x = false -> is_nan y = false -> F64.leb x y = false -> F64.ltb y x = true.
Proof.
  intros Hx Hy H. apply ltb_total; auto.
  - unfold F64.leb, F64.ltb, SFleb, SFltb in *. destruct (SFcompare x y) as [[]|]; congruence.
  - unfold F64.leb, F64.eqb, SFleb, SFeqb in *. destruct (SFcompare x y) as [[]|]; congruence.
Qed.

Lemma ltb_eqb_false (x y : f64) : F64.ltb x y = true -> F64.eqb x y = false.
Proof.
  intros H. destruct (F64.eqb x y) eqn:E; [|reflexivity].
  pose proof (ltb_eqb_trans x y x H). rewrite ltb_irrefl in *.
  assert (F64.eqb y x = true) as Hyx.
  { apply eqb_key in E as (? & ? & ?). apply eqb_key. auto. }
  now apply H0 in Hyx.
Qed.

Lemma eqb_sym (x y : f64) : F64.eqb x y = F64.eqb y x.
Proof.
  destruct (F64.eqb y x) eqn:E.
  - apply eqb_key in E as (? & ? & ?). apply eqb_key. auto.
  - destruct (F64.eqb x y) eqn:E'; [|reflexivity].
    apply eqb_key in E' as (? & ? & ?).
    assert (F64.eqb y x = true) by (apply eqb_key; auto). congruence.
Qed.

Lemma gtb_nan (x : f64) : F64.gtb x S754_nan = false.
Proof. destruct x; reflexivity. Qed.

(** [x - x] is a zero or NaN, and so is any quotient of it. *)
Lemma sub_self (x : f64) : F64.sub x x = S754_nan \/ exists s, F64.sub x x = S754_zero s.
Proof.
  destruct x as [s|s| |s m e]; unfold F64.sub; simpl.
  - right. exists false. destruct s; reflexivity.
  - left. destruct s; reflexivity.
  - left. reflexivity.
  - right. exists false. rewrite Z.sub_diag. reflexivity.
Qed.

Lemma div_sub_self_not_normal (x y : f64) : is_normal (F64.div (F64.sub x x) y) = false.
Proof.
  destruct (sub_self x) as [->|[s ->]];
    destruct y as [sy|sy| |sy my ey]; repeat (match goal with b : bool |- _ => destruct b end); reflexivity.
Qed.
End F64Facts.

(** ** Facts on gradients *)

Module GradientFacts.
Import F64Facts Gradient.

Lemma sorted_tail (x : GradientStop) (l : Gradient) :
  sorted (x :: l) = true -> sorted l = true.
Proof.
  destruct x as [p c]; destruct l as [|[q d] l]; simpl; [reflexivity|].
  now rewrite andb_true_iff; intros [_ H].
Qed.

Lemma sorted_head_lt (x : GradientStop) (l : Gradient) :
  sorted (x :: l) = true -> forall s, In s l -> F64.ltb (fst x) (fst s) = true.
Proof.
  revert x. induction l as [|y l IH]; intros x Hs s Hin; [destruct Hin|].
  destruct x as [p c], y as [q d]. simpl in Hs. apply andb_true_iff in Hs as [H1 H2].
  destruct Hin as [<-|Hin]; [exact H1|].
  apply ltb_trans with q; [exact H1|]. exact (IH (q, d) H2 s Hin).
Qed.

Lemma sorted_nth_lt (l : Gradient) (i j : nat) (si sj : GradientStop) :
  sorted l = true -> (i < j)%nat ->
  nth_error l i = Some si -> nth_error l j = Some sj ->
  F64.ltb (fst si) (fst sj) = true.
Proof.
  revert i j. induction l as [|x l IH]; intros i j Hs Hij Hi Hj;
    [destruct i; discriminate|].
  destruct i as [|i], j as [|j]; try lia; simpl in Hi, Hj.
  - injection Hi as <-. apply (sorted_head_lt x l Hs). eapply nth_error_In; eauto.
  - apply (IH i j); auto; [eapply sorted_tail; eauto|lia].
Qed.

Lemma scan_find_none (prev : option GradientStop) (l : Gradient) (t : f64) :
  (forall s, In s l -> F64.gtb (fst s) t = false) -> scan_find prev l t = None.
Proof.
  revert prev. induction l as [|x l IH]; intros prev H; [reflexivity|].
  simpl. rewrite (H x (or_introl eq_refl)). apply IH. intros s Hs. apply H. now right.
Qed.

Lemma scan_find_none_inv (prev : option GradientStop) (l : Gradient) (t : f64) :
  scan_find prev l t = None -> forall s, In s l -> F64.gtb (fst s) t = false.
Proof.
  revert prev. induction l as [|x l IH]; intros prev H s Hs; [destruct Hs|].
  simpl in H. destruct (F64.gtb (fst x) t) eqn:E; [discriminate|].
  destruct Hs as [<-|Hs]; [exact E|]. exact (IH _ H s Hs).
Qed.

(** The scan stops at the first stop past [t], paired with the stop
    before it, or with [prev] (or itself) when it is the first one. *)
Lemma scan_find_at (prev : option GradientStop) (l : Gradient) (t : f64)
  (k : nat) (s : GradientStop) :
  nth_error l k = Some s -> F64.gtb (fst s) t = true ->
  (forall j s', (j < k)%nat -> nth_error l j = Some s' -> F64.gtb (fst s') t = false) ->
  scan_find prev l t =
    Some (match k with
          | O => match prev with Some p => p | None => s end
          | S k' => match nth_error l k' with Some p => p | None => s end
          end, s).
Proof.
  revert prev k. induction l as [|x l IH]; intros prev k Hk Hgt Hbefore;
    [destruct k; discriminate|].
  destruct k as [|k]; simpl in Hk |- *.
  - injection Hk as ->. now rewrite Hgt.
  - rewrite (Hbefore 0%nat x ltac:(lia) eq_refl).
    rewrite (IH (Some x) k Hk Hgt).
    + destruct k; reflexivity.
    + intros j s' Hj Hs'. apply (Hbefore (S j) s'); [lia|exact Hs'].
Qed.

Lemma scan_find_some (prev : option GradientStop) (l : Gradient) (t : f64)
  (p s : GradientStop) :
  scan_find prev l t = Some (p, s) ->
  exists k, nth_error l k = Some s /\ F64.gtb (fst s) t = true /\
    (forall j s', (j < k)%nat -> nth_error l j = Some s' -> F64.gtb (fst s') t = false) /\
    p = match k with
        | O => match prev with Some p => p | None => s end
        | S k' => match nth_error l k' with Some p => p | None => s end
        end.
Proof.
  revert prev. induction l as [|x l IH]; intros prev H; [discriminate|].
  simpl in H. destruct (F64.gtb (fst x) t) eqn:E.
  - injection H as <- <-. exists 0%nat. repeat split; auto.
    intros j s' Hj. lia.
  - destruct (IH (Some x) H) as (k & Hk & Hgt & Hb & Hp).
    exists (S k). repeat split; auto.
    + intros [|j] s' Hj Hs'; simpl in Hs'; [now injection Hs' as <-|].
      apply (Hb j s'); [lia|exact Hs'].
    + rewrite Hp. destruct k; reflexivity.
Qed.

Lemma vec_last_some (l : Gradient) : l <> [] -> exists s, vec_last l = Some s.
Proof.
  induction l as [|x l IH]; intros H; [congruence|].
  destruct l as [|y l]; [exists x; reflexivity|]. apply IH. discriminate.
Qed.

Lemma vec_last_nth (l : Gradient) (s : GradientStop) :
  vec_last l = Some s -> nth_error l (pred (length l)) = Some s.
Proof.
  induction l as [|x l IH]; intros H; [discriminate|].
  destruct l as [|y l]; [exact H|]. apply IH in H. exact H.
Qed.

Lemma vec_last_In (l : Gradient) (s : GradientStop) :
  vec_last l = Some s -> In s l.
Proof. intros H. apply vec_last_nth in H. eapply nth_error_In; eauto. Qed.

Lemma ltb_leb_false (x y : f64) : F64.ltb x y = true -> F64.leb y x = true -> False.
Proof.
  intros H1 H2. destruct (leb_cases y x H2) as [H3|H3].
  - pose proof (ltb_trans x y x H1 H3). rewrite ltb_irrefl in *. discriminate.
  - pose proof (ltb_eqb_trans x y x H1 H3). rewrite ltb_irrefl in *. discriminate.
Qed.

(** Every stop of a sorted gradient is at or before the last one. *)
Lemma sorted_le_last (l : Gradient) (last s : GradientStop) :
  sorted l = true -> vec_last l = Some last -> In s l ->
  s = last \/ F64.ltb (fst s) (fst last) = true.
Proof.
  intros Hs Hl Hin. apply In_nth_error in Hin as [j Hj].
  pose proof (vec_last_nth l last Hl) as Hn.
  assert (Hjl : (j < length l)%nat) by (apply nth_error_Some; congruence).
  destruct (Nat.eq_dec j (pred (length l))) as [->|Hne].
  - left. congruence.
  - right. apply (sorted_nth_lt l j (pred (length l))); auto. lia.
Qed.

Lemma no_nan_In (l : Gradient) (s : GradientStop) :
  no_nan_positions l = true -> In s l -> is_nan (fst s) = false.
Proof.
  unfold no_nan_positions. rewrite forallb_forall. intros H Hin.
  apply H in Hin. now destruct (is_nan (fst s)).
Qed.

Lemma sorted_cons_eq (y : GradientStop) (l : Gradient) :
  sorted (y :: l) =
  match l with [] => true | z :: _ => F64.ltb (fst y) (fst z) && sorted l end.
Proof. destruct y, l as [|[]]; reflexivity. Qed.

Lemma sorted_cons_iff (y : GradientStop) (l : Gradient) :
  sorted (y :: l) = true <->
  sorted l = true /\ forall s, In s l -> F64.ltb (fst y) (fst s) = true.
Proof.
  split.
  - intros H. split; [exact (sorted_tail y l H)|exact (sorted_head_lt y l H)].
  - intros [H1 H2]. rewrite sorted_cons_eq. destruct l as [|z l]; [reflexivity|].
    rewrite H2 by (left; reflexivity). exact H1.
Qed.

Lemma skip_shift (l : Gradient) (t : f64) (i : nat) :
  skip_while_less l t (S i) = option_map S (skip_while_less l t i).
Proof.
  revert i. induction l as [|[v c] l IH]; intros i; [reflexivity|].
  simpl. destruct (F64.ltb v t); [apply IH|reflexivity].
Qed.

Lemma insert_cons_lt (x : GradientStop) (l : Gradient) (t : f64) (c : Colour) :
  F64.ltb (fst x) t = true -> insert (x :: l) t c = option_map (cons x) (insert l t c).
Proof.
  intros H. destruct x as [v cv]. unfold insert. simpl in H |- *.
  rewrite H, skip_shift.
  destruct (skip_while_less l t 0) as [k|]; simpl; [|reflexivity].
  destruct (nth_error l k) as [[w cw]|]; [|reflexivity].
  destruct (F64.eqb w t); reflexivity.
Qed.

Lemma insert_cons_not_lt (x : GradientStop) (l : Gradient) (t : f64) (c : Colour) :
  F64.ltb (fst x) t = false ->
  insert (x :: l) t c =
    Some (if F64.eqb (fst x) t then (fst x, c) :: l else (t, c) :: x :: l).
Proof.
  intros H. destruct x as [v cv]. unfold insert. simpl in H |- *.
  rewrite H. simpl. destruct (F64.eqb v t); reflexivity.
Qed.

Definition replace_at (t : f64) (c : Colour) (s : GradientStop) : GradientStop :=
  if F64.eqb (fst s) t then (fst s, c) else s.

(** The behaviour of [insert] on a sorted, NaN-free gradient at a
    non-NaN position. *)
Lemma insert_spec (g : Gradient) (t : f64) (c : Colour) :
  sorted g = true -> no_nan_positions g = true -> is_nan t = false ->
  exists g', insert g t c = Some g' /\
    sorted g' = true /\ no_nan_positions g' = true /\
    (forall s', In s' g' -> fst s' = t \/ exists s, In s g /\ fst s = fst s') /\
    ((exists s, In s g /\ F64.eqb (fst s) t = true) -> g' = map (replace_at t c) g) /\
    ((forall s, In s g -> F64.eqb (fst s) t = false) ->
       exists l1 l2, g = l1 ++ l2 /\ g' = l1 ++ (t, c) :: l2 /\
         (forall s, In s l1 -> F64.ltb (fst s) t = true) /\
         (forall s, In s l2 -> F64.ltb t (fst s) = true)).
Proof.
  intros Hs Hn Ht. induction g as [|x l IH].
  - exists [(t, c)]. repeat split.
    + simpl. now rewrite Ht.
    + intros s' [<-|[]]. now left.
    + intros (s & [] & _).
    + intros _. exists [], []. repeat split; intros s [].
  - assert (Hx : is_nan (fst x) = false) by (apply (no_nan_In (x :: l)); auto; now left).
    assert (Hnl : no_nan_positions l = true)
      by (simpl in Hn; now apply andb_true_iff in Hn as [_ ?]).
    pose proof (proj2 (proj1 (sorted_cons_iff x l) Hs)) as Hhead.
    pose proof (sorted_tail x l Hs) as Hsl.
    destruct (F64.ltb (fst x) t) eqn:Hlt.
    + destruct (IH Hsl Hnl) as (l' & Hi & Hs' & Hn' & Hm & HA & HB).
      exists (x :: l'). rewrite insert_cons_lt by exact Hlt. rewrite Hi.
      repeat split.
      * apply sorted_cons_iff. split; [exact Hs'|].
        intros s' Hin. destruct (Hm s' Hin) as [->|(s & Hs1 & <-)]; auto.
      * simpl. now rewrite Hx, Hn'.
      * intros s' [<-|Hin]; [right; exists x; split; [now left|reflexivity]|].
        destruct (Hm s' Hin) as [?|(s & ? & ?)]; [now left|right; exists s; split; [now right|auto]].
      * intros (s & [<-|Hin] & He).
        -- rewrite (ltb_eqb_false _ _ Hlt) in He. discriminate.
        -- simpl. unfold replace_at at 1. rewrite (ltb_eqb_false _ _ Hlt).
           f_equal. apply HA. eauto.
      * intros Hne. destruct HB as (l1 & l2 & -> & -> & H1 & H2).
        { intros s Hin. apply Hne. now right. }
        exists (x :: l1), l2. repeat split; auto.
        intros s [<-|Hin]; auto.
    + assert (Hall : forall s, In s l -> F64.eqb (fst x) t = true -> F64.eqb (fst s) t = false).
      { intros s Hin He. rewrite eqb_sym. apply ltb_eqb_false.
        rewrite eqb_sym in He. exact (eqb_ltb_trans _ _ _ He (Hhead s Hin)). }
      rewrite insert_cons_not_lt by exact Hlt.
      destruct (F64.eqb (fst x) t) eqn:He.
      * exists ((fst x, c) :: l). repeat split.
        -- rewrite sorted_cons_eq. rewrite sorted_cons_eq in Hs. exact Hs.
        -- simpl in Hn |- *. exact Hn.
        -- intros s' [<-|Hin]; right; [exists x|exists s']; split; auto; now (left + right).
        -- intros _.
           assert (Hid : map (replace_at t c) l = l).
           { clear -Hall. induction l as [|y l IHl]; [reflexivity|].
             simpl. unfold replace_at at 1. rewrite (Hall y (or_introl eq_refl) eq_refl).
             f_equal. apply IHl. intros s Hin. apply Hall. now right. }
           simpl. rewrite Hid. unfold replace_at. rewrite He. reflexivity.
        -- intros Hne. rewrite (Hne x (or_introl eq_refl)) in He. discriminate.
      * assert (Htx : F64.ltb t (fst x) = true) by (apply ltb_total; auto).
        exists ((t, c) :: x :: l). repeat split.
        -- apply sorted_cons_iff. split; [exact Hs|].
           intros s [<-|Hin]; [exact Htx|]. exact (ltb_trans _ _ _ Htx (Hhead s Hin)).
        -- simpl in Hn |- *. now rewrite Ht.
        -- intros s' [<-|Hin]; [now left|right; exists s'; auto].
        -- intros (s & [<-|Hin] & Hes); [congruence|].
           pose proof (ltb_trans _ _ _ Htx (Hhead s Hin)) as Hts.
           rewrite eqb_sym, (ltb_eqb_false _ _ Hts) in Hes. discriminate.
        -- intros _. exists [], (x :: l). repeat split; [intros s []|].
           intros s [<-|Hin]; [exact Htx|]. exact (ltb_trans _ _ _ Htx (Hhead s Hin)).
Qed.
End GradientFacts.

(** ** Exact arithmetic with [1.0] and [+0.0] *)

Module F64Arith.
Import F64Facts.

Lemma iter_pos_nat {A : Type} (f : A -> A) (p : positive) (x : A) :
  SpecFloat.iter_pos f p x = Nat.iter (Pos.to_nat p) f x.
Proof.
  revert x. induction p as [p IH|p IH|]; intros x; cbn [SpecFloat.iter_pos].
  - rewrite Pos2Nat.inj_xI, Nat.iter_succ_r.
    replace (2 * Pos.to_nat p)%nat with (Pos.to_nat p + Pos.to_nat p)%nat by lia.
    rewrite Nat.iter_add, !IH. reflexivity.
  - rewrite Pos2Nat.inj_xO.
    replace (2 * Pos.to_nat p)%nat with (Pos.to_nat p + Pos.to_nat p)%nat by lia.
    rewrite Nat.iter_add, !IH. reflexivity.
  - reflexivity.
Qed.

Lemma digits2_shift (m : positive) (k : nat) :
  Zpos (digits2_pos (Nat.iter k xO m)) = (Zpos (digits2_pos m) + Z.of_nat k)%Z.
Proof.
  induction k as [|k IH]; simpl Nat.iter; [lia|].
  change (digits2_pos (xO (Nat.iter k xO m))) with (Pos.succ (digits2_pos (Nat.iter k xO m))).
  rewrite Pos2Z.inj_succ, IH. lia.
Qed.

Lemma shr_shift (m : positive) (k : nat) :
  Nat.iter k shr_1 (Build_shr_record (Zpos (Nat.iter k xO m)) false false) =
  Build_shr_record (Zpos m) false false.
Proof.
  revert m. induction k as [|k IH]; intros m; [reflexivity|].
  rewrite Nat.iter_succ_r. simpl Nat.iter at 2.
  change (shr_1 (Build_shr_record (Zpos (xO (Nat.iter k xO m))) false false))
    with (Build_shr_record (Zpos (Nat.iter k xO m)) false false).
  apply IH.
Qed.

Lemma round_exact (s : bool) (m : positive) (e : Z) (k : nat) :
  canonical_mantissa prec emax m e = true -> Z.leb e (emax - prec) = true ->
  binary_round_aux prec emax s (Zpos (Nat.iter k xO m)) (e - Z.of_nat k) loc_Exact =
  S754_finite s m e.
Proof.
  intros Hc He. unfold canonical_mantissa in Hc. apply Z.eqb_eq in Hc.
  unfold binary_round_aux, shr_fexp. simpl Zdigits2.
  rewrite digits2_shift.
  replace (Zpos (digits2_pos m) + Z.of_nat k + (e - Z.of_nat k))%Z
    with (Zpos (digits2_pos m) + e)%Z by lia.
  assert (Hc' : fexp prec emax (Zpos (digits2_pos m) + e)%Z = e) by exact Hc.
  match goal with |- context [fexp ?a ?b ?c] =>
    let H := fresh in assert (H : fexp a b c = e) by exact Hc; rewrite H end.
  replace (e - (e - Z.of_nat k))%Z with (Z.of_nat k) by lia.
  assert (Hshr : shr (shr_record_of_loc (Zpos (Nat.iter k xO m)) loc_Exact)
                   (e - Z.of_nat k) (Z.of_nat k) = (Build_shr_record (Zpos m) false false, e)).
  { change (shr_record_of_loc (Zpos (Nat.iter k xO m)) loc_Exact) with
      (Build_shr_record (Zpos (Nat.iter k xO m)) false false).
    destruct k as [|k].
    - simpl. f_equal. lia.
    - change (Z.of_nat (S k)) with (Zpos (Pos.of_succ_nat k)). unfold shr.
      rewrite iter_pos_nat, SuccNat2Pos.id_succ, shr_shift. f_equal. lia. }
  rewrite Hshr. cbv beta iota. simpl shr_m. simpl loc_of_shr_record. simpl round_nearest_even.
  simpl Zdigits2.
  match goal with |- context [fexp ?a ?b ?c] =>
    let H := fresh in assert (H : fexp a b c = e) by exact Hc; rewrite H end.
  rewrite Z.sub_diag. simpl.
  destruct (Z.leb e 971) eqn:E; [reflexivity|].
  apply Z.leb_le in He. apply Z.leb_gt in E. unfold emax, prec in He. lia.
Qed.

Lemma iter_xO_mul (k : nat) (m : positive) : Nat.iter k xO m = (m * Nat.iter k xO 1)%positive.
Proof.
  induction k as [|k IH]; simpl; [lia|]. rewrite IH. lia.
Qed.

Lemma mul_one_finite (s : bool) (m : positive) (e : Z) :
  bounded prec emax m e = true -> SFmul prec emax (S754_finite s m e) (S754_finite false 4503599627370496 (-52)) = S754_finite s m e.
Proof.
  intros Hb. unfold bounded in Hb. apply andb_prop in Hb as [Hc He].
  unfold SFmul. rewrite xorb_false_r.
  replace (m * 4503599627370496)%positive with (Nat.iter 52 xO m)
    by (rewrite iter_xO_mul; reflexivity).
  replace (e + -52)%Z with (e - Z.of_nat 52)%Z by lia.
  apply round_exact; assumption.
Qed.

Ltac to_stdlib :=
  try change IntDef.Z.add with BinInt.Z.add in *;
  try change IntDef.Z.sub with BinInt.Z.sub in *;
  try change IntDef.Z.min with BinInt.Z.min in *;
  try change IntDef.Z.max with BinInt.Z.max in *;
  try change IntDef.Z.mul with BinInt.Z.mul in *;
  try change IntDef.Z.opp with BinInt.Z.opp in *;
  try change IntDef.Z.shiftl with BinInt.Z.shiftl in *;
  try change IntDef.Z.div_eucl with BinInt.Z.div_eucl in *;
  try change IntDef.Z.leb with BinInt.Z.leb in *;
  try change IntDef.Z.eqb with BinInt.Z.eqb in *;
  try change IntDef.Z.pow with BinInt.Z.pow in *;
  try change IntDef.Z.div with BinInt.Z.div in *;
  try change IntDef.Z.modulo with BinInt.Z.modulo in *.

Lemma div_one_finite (s : bool) (m : positive) (e : Z) :
  bounded prec emax m e = true -> SFdiv prec emax (S754_finite s m e) (S754_finite false 4503599627370496 (-52)) = S754_finite s m e.
Proof.
  intros Hb. unfold bounded in Hb. apply andb_prop in Hb as [Hc He].
  unfold SFdiv, SFdiv_core_binary. rewrite xorb_false_r.
  change (Zdigits2 4503599627370496) with 53%Z.
  change (Zdigits2 (Z.pos m)) with (Z.pos (digits2_pos m)).
  pose proof Hc as Hc'. unfold canonical_mantissa in Hc'. apply Z.eqb_eq in Hc'.
  unfold fexp, emin, prec, emax in Hc'. unfold fexp, emin.
  to_stdlib.
  remember (BinInt.Z.min _ _) as E' eqn:HE0.
  assert (HE : E' = (e - 1)%Z \/ E' = e).
  { subst E'. unfold prec, emax. pose proof (Pos2Z.is_pos (digits2_pos m)). lia. }
  assert (Hdiv : forall (q : positive) (n k : Z), (0 <= k)%Z -> n = (52 + k)%Z ->
    BinInt.Z.div_eucl (BinInt.Z.shiftl (Zpos q) n) 4503599627370496 =
    (Zpos q * 2 ^ k, 0)%Z).
  { intros q n k Hk ->. rewrite Z.shiftl_mul_pow2 by lia.
    rewrite Z.pow_add_r by lia. change (2 ^ 52)%Z with 4503599627370496%Z.
    replace (Zpos q * (4503599627370496 * 2 ^ k))%Z with ((Zpos q * 2 ^ k) * 4503599627370496)%Z by ring.
    generalize (Zpos q * 2 ^ k)%Z as X. intros X.
    pose proof (Z.div_mul X 4503599627370496 ltac:(lia)) as H1.
    pose proof (Z.mod_mul X 4503599627370496 ltac:(lia)) as H2.
    unfold BinInt.Z.div, BinInt.Z.modulo in H1, H2.
    destruct (BinInt.Z.div_eucl _ _). simpl in H1, H2. subst. reflexivity. }
  change (new_location 4503599627370496 0) with loc_Exact.
  destruct HE as [HE|HE]; rewrite HE.
  - replace (e - -52 - (e - 1))%Z with 53%Z by lia.
    cbv iota beta. rewrite (Hdiv m 53%Z 1%Z ltac:(lia) eq_refl).
    replace (Zpos m * 2 ^ 1)%Z with (Zpos (Nat.iter 1 xO m)) by (simpl; lia).
    cbv iota beta. change (new_location 4503599627370496 0) with loc_Exact.
    replace (e - 1)%Z with (e - Z.of_nat 1)%Z by lia.
    apply round_exact; assumption.
  - replace (e - -52 - e)%Z with 52%Z by lia.
    cbv iota beta. rewrite (Hdiv m 52%Z 0%Z ltac:(lia) eq_refl).
    replace (Zpos m * 2 ^ 0)%Z with (Zpos (Nat.iter 0 xO m)) by (simpl; lia).
    cbv iota beta. change (new_location 4503599627370496 0) with loc_Exact.
    replace e with (e - Z.of_nat 0)%Z at 1 by lia.
    apply round_exact; assumption.
Qed.

Lemma one_eq : one = S754_finite false 4503599627370496 (-52).
Proof. vm_compute. reflexivity. Qed.

Lemma mul_one (x : f64) : valid x = true -> mul x one = x.
Proof.
  intros Hv. rewrite one_eq. unfold mul.
  destruct x as [s|s| |s m e]; try (destruct s; reflexivity); [reflexivity|].
  apply mul_one_finite. exact Hv.
Qed.

Lemma div_one (x : f64) : valid x = true -> div x one = x.
Proof.
  intros Hv. rewrite one_eq. unfold div.
  destruct x as [s|s| |s m e]; try (destruct s; reflexivity); [reflexivity|].
  apply div_one_finite. exact Hv.
Qed.

Lemma add_zero_l (x : f64) : add zero x = positive_zero x.
Proof. destruct x as [s|s| |s m e]; try destruct s; reflexivity. Qed.

Lemma valid_positive_zero (x : f64) : valid x = true -> valid (positive_zero x) = true.
Proof. destruct x; auto. Qed.

Lemma eqb_positive_zero (x : f64) : F64.eqb (positive_zero x) x = negb (is_nan x).
Proof.
  destruct x as [s|s| |s m e]; [destruct s; reflexivity | | reflexivity | ];
    simpl; apply eqb_key; simpl; auto.
Qed.
End F64Arith.

(** ** Facts on channels, clamping, conversions and compositing *)

Module ColourFacts.
Import F64Facts GradientFacts F64Arith Colour Conversions.

(** A channel value that is NaN or lies in [0, 1]. *)
Definition unit_or_nan (v : f64) : bool := is_nan v || (F64.leb zero v && F64.leb v one).

(** The four channels of a colour. *)
Definition channels (c : Colour) : list f64 := [r c; g c; b c; a c].

(** The bytes [0 .. 255]. *)
Definition bytes : list Z := List.map Z.of_nat (seq 0 256).

Lemma forall_bytes (f : Z -> bool) :
  forallb f bytes = true -> forall n, (0 <= n < 256)%Z -> f n = true.
Proof.
  intros H n Hn. rewrite forallb_forall in H. apply H.
  apply in_map_iff. exists (Z.to_nat n). split; [lia|]. apply in_seq. lia.
Qed.

Lemma leb_ltb_eqb (x y : f64) : F64.leb x y = F64.ltb x y || F64.eqb x y.
Proof.
  unfold F64.leb, F64.ltb, F64.eqb, SFleb, SFltb, SFeqb.
  destruct (SFcompare x y) as [[]|]; reflexivity.
Qed.

Lemma eqb_trans (x y z : f64) :
  F64.eqb x y = true -> F64.eqb y z = true -> F64.eqb x z = true.
Proof. rewrite !eqb_key. intros (? & ? & H1) (? & ? & H2). repeat split; congruence. Qed.

Lemma leb_trans (x y z : f64) :
  F64.leb x y = true -> F64.leb y z = true -> F64.leb x z = true.
Proof.
  rewrite !leb_ltb_eqb, !orb_true_iff. intros [H1|H1] [H2|H2].
  - left. eapply ltb_trans; eauto.
  - left. eapply ltb_eqb_trans; eauto.
  - left. eapply eqb_ltb_trans; eauto.
  - right. eapply eqb_trans; eauto.
Qed.

Lemma leb_refl (x : f64) : is_nan x = false -> F64.leb x x = true.
Proof. intros H. rewrite leb_ltb_eqb, orb_true_iff. right. apply eqb_key. auto. Qed.

Lemma ltb_leb (x y : f64) : F64.ltb x y = true -> F64.leb x y = true.
Proof. intros H. now rewrite leb_ltb_eqb, H. Qed.

Lemma not_ltb_leb (x y : f64) :
  is_nan x = false -> is_nan y = false -> F64.ltb x y = false -> F64.leb y x = true.
Proof.
  intros Hx Hy H. destruct (F64.leb y x) eqn:E; [reflexivity|].
  rewrite (not_leb_ltb y x Hy Hx E) in H. discriminate.
Qed.

Lemma leb_not_nan (x y : f64) : F64.leb x y = true -> is_nan x = false /\ is_nan y = false.
Proof. intros H. destruct x, y; try discriminate; split; reflexivity. Qed.

(** [f64::max] and [f64::min] return one of their arguments, NaN only
    when both are, and bound every non-NaN argument. *)
Lemma max_cases (x y : f64) : F64.max x y = x \/ F64.max x y = y.
Proof. unfold F64.max. destruct (is_nan x), (is_nan y), (F64.gtb x y); auto. Qed.

Lemma min_cases (x y : f64) : F64.min x y = x \/ F64.min x y = y.
Proof. unfold F64.min. destruct (is_nan x), (is_nan y), (F64.ltb x y); auto. Qed.

Lemma max_nan (x y : f64) : is_nan (F64.max x y) = is_nan x && is_nan y.
Proof.
  unfold F64.max. destruct (is_nan x) eqn:Hx, (is_nan y) eqn:Hy; simpl; auto.
  destruct (F64.gtb x y); auto.
Qed.

Lemma min_nan (x y : f64) : is_nan (F64.min x y) = is_nan x && is_nan y.
Proof.
  unfold F64.min. destruct (is_nan x) eqn:Hx, (is_nan y) eqn:Hy; simpl; auto.
  destruct (F64.ltb x y); auto.
Qed.

Lemma max_ge_l (x y : f64) : is_nan x = false -> F64.leb x (F64.max x y) = true.
Proof.
  intros Hx. unfold F64.max. rewrite Hx.
  destruct (is_nan y) eqn:Hy; [now apply leb_refl|].
  destruct (F64.gtb x y) eqn:E; [now apply leb_refl|].
  rewrite gtb_ltb in E. exact (not_ltb_leb y x Hy Hx E).
Qed.

Lemma max_ge_r (x y : f64) : is_nan y = false -> F64.leb y (F64.max x y) = true.
Proof.
  intros Hy. unfold F64.max.
  destruct (is_nan x) eqn:Hx; [now apply leb_refl|]. rewrite Hy.
  destruct (F64.gtb x y) eqn:E; [|now apply leb_refl].
  rewrite gtb_ltb in E. now apply ltb_leb.
Qed.

Lemma min_le_l (x y : f64) : is_nan x = false -> F64.leb (F64.min x y) x = true.
Proof.
  intros Hx. unfold F64.min. rewrite Hx.
  destruct (is_nan y) eqn:Hy; [now apply leb_refl|].
  destruct (F64.ltb x y) eqn:E; [now apply leb_refl|].
  exact (not_ltb_leb x y Hx Hy E).
Qed.

Lemma min_le_r (x y : f64) : is_nan y = false -> F64.leb (F64.min x y) y = true.
Proof.
  intros Hy. unfold F64.min.
  destruct (is_nan x) eqn:Hx; [now apply leb_refl|]. rewrite Hy.
  destruct (F64.ltb x y) eqn:E; [now apply ltb_leb|now apply leb_refl].
Qed.

Lemma max_ge_trans (v x y : f64) :
  F64.leb v y = true -> F64.leb v (F64.max x y) = true.
Proof.
  intros H. apply (leb_trans _ y); [exact H|].
  apply max_ge_r. exact (proj2 (leb_not_nan _ _ H)).
Qed.

Lemma min_le_trans (v x y : f64) :
  F64.leb y v = true -> F64.leb (F64.min x y) v = true.
Proof.
  intros H. apply (leb_trans _ y); [|exact H].
  apply min_le_r. exact (proj1 (leb_not_nan _ _ H)).
Qed.

(** [clamp(0, 1)]: NaN stays NaN, every other value lands in [0, 1], and
    values already there are kept. *)
Lemma clamp_nan (v : f64) : is_nan (F64.clamp v zero one) = is_nan v.
Proof.
  unfold F64.clamp. destruct v as [s|s| |s m e]; try reflexivity;
    destruct (F64.ltb _ zero); try reflexivity;
    destruct (F64.gtb _ one); reflexivity.
Qed.

Lemma clamp_unit (v : f64) : unit_or_nan (F64.clamp v zero one) = true.
Proof.
  unfold unit_or_nan. rewrite clamp_nan.
  destruct (is_nan v) eqn:Hv; [reflexivity|]. simpl. unfold F64.clamp.
  destruct (F64.ltb v zero) eqn:E1; [vm_compute; reflexivity|].
  assert (H0 : F64.leb zero v = true) by exact (not_ltb_leb v zero Hv eq_refl E1).
  destruct (F64.gtb v one) eqn:E2; [vm_compute; reflexivity|].
  rewrite gtb_ltb in E2.
  rewrite H0, (not_ltb_leb one v ltac:(vm_compute; reflexivity) Hv E2). reflexivity.
Qed.

Lemma clamp_id (v : f64) : unit_or_nan v = true -> F64.clamp v zero one = v.
Proof.
  unfold unit_or_nan. intros H. apply orb_true_iff in H as [H|H].
  - destruct v; try discriminate. reflexivity.
  - apply andb_prop in H as [H0 H1]. unfold F64.clamp.
    destruct (F64.ltb v zero) eqn:E1; [exfalso; exact (ltb_leb_false _ _ E1 H0)|].
    rewrite gtb_ltb. destruct (F64.ltb one v) eqn:E2; [exfalso; exact (ltb_leb_false _ _ E2 H1)|].
    reflexivity.
Qed.

Lemma max_unit (x y : f64) :
  unit_or_nan x = true -> unit_or_nan y = true -> unit_or_nan (F64.max x y) = true.
Proof. intros Hx Hy. destruct (max_cases x y) as [->| ->]; assumption. Qed.

Lemma min_unit (x y : f64) :
  unit_or_nan x = true -> unit_or_nan y = true -> unit_or_nan (F64.min x y) = true.
Proof. intros Hx Hy. destruct (min_cases x y) as [->| ->]; assumption. Qed.

Lemma all_rgba_unit (c : Colour) :
  all_rgba c unit_or_nan = true ->
  unit_or_nan (r c) = true /\ unit_or_nan (g c) = true /\
  unit_or_nan (b c) = true /\ unit_or_nan (a c) = true.
Proof.
  unfold all_rgba, all. intros H.
  repeat match goal with H : _ && _ = true |- _ => apply andb_prop in H as [? ?] end.
  auto.
Qed.

Lemma clamped_unit (c : Colour) : all_rgba (clamped c) unit_or_nan = true.
Proof. unfold all_rgba, all, clamped, map_rgba, new. simpl. now rewrite !clamp_unit. Qed.

Lemma clamped_id (c : Colour) : all_rgba c unit_or_nan = true -> clamped c = c.
Proof.
  intros H. apply all_rgba_unit in H as (Hr & Hg & Hb & Ha).
  destruct c as [r0 g0 b0 a0]; simpl in *. unfold clamped, map_rgba, new. simpl.
  now rewrite !clamp_id.
Qed.

Lemma normalise_id (c : Colour) : all_rgba c unit_or_nan = true -> normalise c = c.
Proof.
  intros H. pose proof (all_rgba_unit c H) as (Hr & Hg & Hb & Ha).
  assert (Hmax : unit_or_nan (F64.max (max_channel c) one) = true).
  { apply max_unit; [unfold max_channel; repeat apply max_unit; assumption|reflexivity]. }
  assert (Hmin : unit_or_nan (F64.min (min_channel c) zero) = true).
  { apply min_unit; [unfold min_channel; repeat apply min_unit; assumption|reflexivity]. }
  assert (Nmax : is_nan (F64.max (max_channel c) one) = false)
    by (rewrite max_nan; apply andb_false_r).
  assert (Nmin : is_nan (F64.min (min_channel c) zero) = false)
    by (rewrite min_nan; apply andb_false_r).
  unfold unit_or_nan in Hmax, Hmin. rewrite Nmax in Hmax. rewrite Nmin in Hmin.
  simpl in Hmax, Hmin.
  apply andb_prop in Hmax as [_ Hmax]. apply andb_prop in Hmin as [Hmin _].
  unfold normalise. rewrite Hmin, Hmax. reflexivity.
Qed.

(** The byte round trip [((n as f64 / 255) * 255) as u8 = n], checked
    for all 256 bytes. *)
Lemma u8_roundtrip (n : Z) :
  (0 <= n < 256)%Z -> to_u8 (F64.mul (F64.div (of_Z n) (of_Z 255)) (of_Z 255)) = n.
Proof.
  intros Hn. apply Z.eqb_eq.
  apply (forall_bytes (fun n => Z.eqb (to_u8 (F64.mul (F64.div (of_Z n) (of_Z 255)) (of_Z 255))) n));
    [vm_compute; reflexivity|exact Hn].
Qed.

(** Alpha compositing over an opaque base under an opaque layer. *)
Lemma mul_zero_finite (x : f64) : is_finite x = true -> exists s, F64.mul x zero = S754_zero s.
Proof. destruct x; try discriminate; eexists; reflexivity. Qed.

Lemma clean_value_finite (v : f64) :
  F64.valid v = true ->
  valid (clean_value v) = true /\ exists s m e, clean_value v = S754_finite s m e.
Proof.
  intros Hv. unfold clean_value. destruct (is_normal v) eqn:E; simpl.
  - destruct v as [s|s| |s m e]; try (destruct s; discriminate E); [discriminate E|].
    split; [exact Hv|eauto].
  - split; [reflexivity|]. eexists _, _, _. reflexivity.
Qed.

Lemma composite_channel (x v : f64) :
  valid x = true -> is_finite x = true -> valid v = true ->
  F64.div (F64.add (F64.mul (clean_value v) one)
                   (F64.mul (F64.mul x one) (F64.sub one one))) one = clean_value v.
Proof.
  intros Hx Fx Hv. destruct (clean_value_finite v Hv) as (Hc & s & m & e & Hce).
  rewrite (mul_one x Hx), (mul_one _ Hc).
  change (F64.sub one one) with zero.
  destruct (mul_zero_finite x Fx) as [s' ->].
  rewrite Hce. change (F64.add (S754_finite s m e) (S754_zero s')) with (S754_finite s m e).
  rewrite <- Hce. exact (div_one _ Hc).
Qed.

Lemma composite_opaque (base layer bl : Colour) :
  a base = one -> a layer = one -> a bl = one ->
  valid (r base) = true -> valid (g base) = true -> valid (b base) = true ->
  is_finite (r base) = true -> is_finite (g base) = true -> is_finite (b base) = true ->
  valid (r bl) = true -> valid (g bl) = true -> valid (b bl) = true ->
  composite base layer (cleaned bl) = cleaned bl.
Proof.
  destruct base as [r0 g0 b0 a0], layer as [r1 g1 b1 a1], bl as [r2 g2 b2 a2].
  simpl. intros -> -> -> Hr Hg Hb Fr Fg Fb Vr Vg Vb.
  unfold composite, cleaned, map_rgba, with_alpha, div_f, add_c, mul_f, new. simpl.
  change (F64.add one (F64.mul one (F64.sub one one))) with one.
  rewrite !composite_channel by assumption.
  change (clean_value one) with one. reflexivity.
Qed.

(** Sampling between a stop and itself. *)
Lemma sub_self_finite (x : f64) : is_finite x = true -> F64.sub x x = zero.
Proof.
  destruct x as [s|s| |s m e]; try discriminate; intros _; unfold F64.sub; simpl.
  - destruct s; reflexivity.
  - rewrite Z.sub_diag. reflexivity.
Qed.

Lemma lerp_self_one (x : f64) :
  is_finite x = true -> F64.add x (F64.mul (F64.sub x x) one) = positive_zero x.
Proof.
  intros Fx. rewrite (sub_self_finite x Fx).
  change (F64.mul zero one) with zero.
  destruct x as [[]|s| |s m e]; try discriminate; reflexivity.
Qed.

Lemma div_by_sub_self_not_normal (x y : f64) : is_normal (F64.div y (F64.sub x x)) = false.
Proof.
  destruct (sub_self x) as [->|[s ->]];
    destruct y as [sy|sy| |sy my ey]; repeat (match goal with b : bool |- _ => destruct b end); reflexivity.
Qed.

Lemma subgradient_first (x : GradientStop) (rest : Gradient) (t : f64) :
  F64.ltb t (fst x) = true -> Gradient.subgradient (x :: rest) t = Some (x, x).
Proof.
  intros Hlt. unfold Gradient.subgradient.
  rewrite (scan_find_at None (x :: rest) t 0 x eq_refl); [reflexivity| |].
  - now rewrite gtb_ltb.
  - intros j s' Hj. lia.
Qed.

Lemma subgradient_last (g : Gradient) (last : GradientStop) (t : f64) :
  Gradient.sorted g = true -> Gradient.vec_last g = Some last ->
  (F64.leb (fst last) t = true \/ is_nan t = true) ->
  Gradient.subgradient g t = Some (last, last).
Proof.
  intros Hs Hl Ht. unfold Gradient.subgradient.
  rewrite scan_find_none; [now rewrite Hl|].
  intros s Hin. destruct Ht as [Hle|Hn].
  - rewrite gtb_ltb.
    destruct (F64.ltb t (fst s)) eqn:E; [exfalso|reflexivity].
    destruct (sorted_le_last _ _ _ Hs Hl Hin) as [->|Hsl].
    + exact (ltb_leb_false _ _ E Hle).
    + exact (ltb_leb_false _ _ (ltb_trans _ _ _ E Hsl) Hle).
  - destruct t; try discriminate. apply gtb_nan.
Qed.

Lemma sample_pair (g : Gradient) (t : f64) (s : GradientStop) :
  Gradient.subgradient g t = Some (s, s) ->
  all_rgba (snd s) is_finite = true ->
  Gradient.sample g t = Some (map_rgba (snd s) positive_zero).
Proof.
  intros Hsub Hf. unfold Gradient.sample, Gradient.interpolate. rewrite Hsub.
  destruct s as [p c]. simpl. rewrite div_by_sub_self_not_normal. simpl.
  unfold all_rgba, all in Hf.
  repeat match goal with H : _ && _ = true |- _ => apply andb_prop in H as [? ?] end.
  destruct c as [r0 g0 b0 a0]; simpl in *.
  unfold Gradient.sample_interpolator, with_alpha, add_c, mul_f, sub_c, map_rgba, new. simpl.
  rewrite !lerp_self_one by assumption. reflexivity.
Qed.
Lemma from_u8_as_u8_roundtrip_helper (r0 g0 b0 a0 : Z) :
  (0 <= r0 < 256)%Z -> (0 <= g0 < 256)%Z -> (0 <= b0 < 256)%Z -> (0 <= a0 < 256)%Z ->
  as_u8 (from_u8 r0 g0 b0) = (r0, g0, b0) /\
  as_u8_rgba (from_u8_rgba r0 g0 b0 a0) = (r0, g0, b0, a0).
Proof.
  intros Hr Hg Hb Ha. unfold as_u8, as_u8_rgba, from_u8_rgba, from_u8, with_alpha, solid, new.
  simpl. rewrite !u8_roundtrip by assumption. split; reflexivity.
Qed.
(** After [insert] at a non-NaN [t] into a sorted NaN-free gradient, the
    scan of [subgradient] at [t] ends on the inserted (or replaced) stop,
    whatever the scan state before it. *)
Lemma insert_scan_lower (g : Gradient) (t : f64) (c : Colour) :
  Gradient.sorted g = true -> Gradient.no_nan_positions g = true -> is_nan t = false ->
  exists g', Gradient.insert g t c = Some g' /\
    forall prev, match Gradient.scan_find prev g' t with
                 | Some (p, _) => snd p = c
                 | None => option_map snd (Gradient.vec_last g') = Some c
                 end.
Proof.
  intros Hs Hn Ht. induction g as [|x l IH].
  - exists [(t, c)]. split; [reflexivity|]. intros prev. simpl.
    rewrite gtb_ltb, ltb_irrefl. reflexivity.
  - assert (Hx : is_nan (fst x) = false) by (apply (no_nan_In (x :: l)); auto; now left).
    assert (Hnl : Gradient.no_nan_positions l = true)
      by (simpl in Hn; now apply andb_true_iff in Hn as [_ ?]).
    pose proof (proj1 (sorted_cons_iff x l) Hs) as [Hsl Hhead].
    destruct (F64.ltb (fst x) t) eqn:Hlt.
    + destruct (IH Hsl Hnl) as (g'' & Hins & HQ).
      exists (x :: g''). split; [rewrite insert_cons_lt by exact Hlt; now rewrite Hins|].
      intros prev. simpl.
      assert (Hg : F64.gtb (fst x) t = false).
      { rewrite gtb_ltb. destruct (F64.ltb t (fst x)) eqn:E; [|reflexivity].
        pose proof (ltb_trans _ _ _ Hlt E) as E'. now rewrite ltb_irrefl in E'. }
      rewrite Hg. specialize (HQ (Some x)).
      destruct (Gradient.scan_find (Some x) g'' t) as [[p q]|]; [exact HQ|].
      destruct g'' as [|y g'']; [discriminate HQ|]. exact HQ.
    + rewrite insert_cons_not_lt by exact Hlt.
      destruct (F64.eqb (fst x) t) eqn:Heq.
      * eexists. split; [reflexivity|]. intros prev. simpl.
        assert (Hg : F64.gtb (fst x) t = false).
        { rewrite gtb_ltb. destruct (F64.ltb t (fst x)) eqn:E; [|reflexivity].
          rewrite eqb_sym in Heq. now rewrite (ltb_eqb_false _ _ E) in Heq. }
        rewrite Hg.
        destruct l as [|y l]; [reflexivity|]. simpl.
        rewrite gtb_ltb, (eqb_ltb_trans t (fst x) (fst y)); [reflexivity| |].
        -- now rewrite eqb_sym.
        -- apply Hhead. now left.
      * eexists. split; [reflexivity|]. intros prev. simpl.
        rewrite gtb_ltb, ltb_irrefl, gtb_ltb, (ltb_total _ _ Hx Ht Hlt Heq).
        reflexivity.
Qed.
(** A product rounded with a negative sign converts to the byte 0. *)
Lemma to_u8_round_neg (m e : Z) (l : location) :
  to_u8 (binary_round_aux F64.prec F64.emax true m e l) = 0%Z.
Proof.
  unfold binary_round_aux.
  destruct (shr_fexp _ _ _ _ _) as [m1 e1].
  destruct (shr_fexp _ _ _ _ _) as [m2 e2].
  destruct (shr_m m2); [reflexivity| |reflexivity].
  destruct (Z.leb _ _); reflexivity.
Qed.

Lemma to_u8_neg (x : f64) :
  (F64.ltb x zero = true \/ is_nan x = true) -> to_u8 (mul x (of_Z 255)) = 0%Z.
Proof.
  intros [H|H]; destruct x as [[] | [] | | [] m e]; try discriminate H; try reflexivity.
  let v := eval vm_compute in (of_Z 255) in change (of_Z 255) with v.
  unfold mul, SFmul. simpl xorb. apply to_u8_round_neg.
Qed.
End ColourFacts.

(** * The claims *)

Module Claims.
Import F64Facts GradientFacts F64Arith.

(** C5 (as amended): for a non-empty gradient with strictly ascending,
    non-NaN positions, [subgradient t] is [(first, first)] when
    [t < first]; [(last, last)] when [last <= t]; otherwise, for a
    non-NaN [t], [(prev, next)] where [next] is the first stop whose
    position is greater than [t] and [prev] the stop just before it; a
    NaN query gives [(last, last)]; a single stop gives [(only, only)]. *)
Theorem subgradient_bracket (g : Gradient) (first last : GradientStop) (t : f64) :
  Gradient.sorted g = true -> Gradient.no_nan_positions g = true ->
  hd_error g = Some first -> Gradient.vec_last g = Some last ->
  (F64.ltb t (fst first) = true -> Gradient.subgradient g t = Some (first, first)) /\
  (F64.leb (fst last) t = true -> Gradient.subgradient g t = Some (last, last)) /\
  (is_nan t = false -> F64.ltb t (fst first) = false -> F64.leb (fst last) t = false ->
     exists i prev next, nth_error g i = Some prev /\ nth_error g (S i) = Some next /\
       F64.gtb (fst next) t = true /\
       (forall j s, (j <= i)%nat -> nth_error g j = Some s -> F64.gtb (fst s) t = false) /\
       Gradient.subgradient g t = Some (prev, next)) /\
  (is_nan t = true -> Gradient.subgradient g t = Some (last, last)) /\
  (length g = 1%nat -> Gradient.subgradient g t = Some (first, first)).
Proof.
  intros Hs Hn Hf Hl.
  destruct g as [|x rest]; [discriminate|]. injection Hf as <-.
  repeat split.
  - intros Hlt. unfold Gradient.subgradient.
    rewrite (scan_find_at None (x :: rest) t 0 x eq_refl); [reflexivity| |].
    + now rewrite gtb_ltb.
    + intros j s' Hj. lia.
  - intros Hle. unfold Gradient.subgradient.
    rewrite scan_find_none; [now rewrite Hl|].
    intros s Hin. rewrite gtb_ltb.
    destruct (F64.ltb t (fst s)) eqn:E; [exfalso|reflexivity].
    destruct (sorted_le_last _ _ _ Hs Hl Hin) as [->|Hsl].
    + exact (ltb_leb_false _ _ E Hle).
    + exact (ltb_leb_false _ _ (ltb_trans _ _ _ E Hsl) Hle).
  - intros Ht Hfirst Hlast.
    assert (Hlt : F64.ltb t (fst last) = true).
    { apply not_leb_ltb; auto. apply (no_nan_In (x :: rest)); auto.
      now apply vec_last_In. }
    unfold Gradient.subgradient.
    destruct (Gradient.scan_find None (x :: rest) t) as [[p s]|] eqn:E.
    + destruct (scan_find_some _ _ _ _ _ E) as (k & Hk & Hgt & Hb & Hp).
      destruct k as [|i].
      * simpl in Hk. injection Hk as <-. rewrite gtb_ltb, Hfirst in Hgt. discriminate.
      * exists i, p, s. repeat split; auto.
        -- destruct (nth_error (x :: rest) i) eqn:Ei; [now subst|].
           apply nth_error_None in Ei.
           assert (S i < length (x :: rest))%nat by (apply nth_error_Some; congruence).
           lia.
        -- intros j s' Hj. apply Hb. lia.
    + exfalso. pose proof (scan_find_none_inv _ _ _ E last (vec_last_In _ _ Hl)) as H.
      rewrite gtb_ltb, Hlt in H. discriminate.
  - intros Ht. destruct t; try discriminate.
    unfold Gradient.subgradient. rewrite scan_find_none; [now rewrite Hl|].
    intros s _. apply gtb_nan.
  - intros Hlen. destruct rest; [|discriminate].
    unfold Gradient.subgradient. simpl. destruct (F64.gtb (fst x) t); reflexivity.
Qed.

Lemma subgradient_bracket_witness :
  Gradient.sorted Examples.test_gradient = true /\
  Gradient.subgradient Examples.test_gradient (of_frac 1 10) =
    Some ((of_frac 5 10, Colour.solid one zero zero),
          (of_frac 5 10, Colour.solid one zero zero)).
Proof.
  split; [vm_compute; reflexivity|].
  refine (proj1 (subgradient_bracket Examples.test_gradient
                   (of_frac 5 10, Colour.solid one zero zero)
                   (of_frac 8 10, Colour.solid zero zero one) (of_frac 1 10)
                   _ _ _ _) _); vm_compute; reflexivity.
Defined.

(** C5 (as stated) fails at a NaN query: it is neither before the first
    stop nor at or beyond the last, and no stop lies strictly after it;
    the code returns [(last, last)]. *)
Lemma subgradient_nan_query_counterexample :
  ~ (forall (g : Gradient) (first last : GradientStop) (t : f64),
      Gradient.sorted g = true ->
      hd_error g = Some first -> Gradient.vec_last g = Some last ->
      (F64.ltb t (fst first) = true -> Gradient.subgradient g t = Some (first, first)) /\
      (F64.leb (fst last) t = true -> Gradient.subgradient g t = Some (last, last)) /\
      (F64.ltb t (fst first) = false -> F64.leb (fst last) t = false ->
         exists i prev next, nth_error g i = Some prev /\ nth_error g (S i) = Some next /\
           F64.gtb (fst next) t = true /\
           (forall j s, (j <= i)%nat -> nth_error g j = Some s -> F64.gtb (fst s) t = false) /\
           Gradient.subgradient g t = Some (prev, next)) /\
      (length g = 1%nat -> Gradient.subgradient g t = Some (first, first))).
Proof.
  intros H.
  destruct (H Examples.two_stops (zero, Colour.red one) (one, Colour.blue one) nan
              eq_refl eq_refl eq_refl) as (_ & _ & H3 & _).
  destruct (H3 eq_refl eq_refl) as (i & prev & next & _ & _ & Hgt & _).
  rewrite gtb_nan in Hgt. discriminate.
Qed.

(** C7: on a non-empty gradient [subgradient], [interpolate] (with any
    interpolator), [sample], [select] and [select_upper] return a value;
    on the empty gradient each of them panics (the [.unwrap()] of
    [subgradient]). *)
Theorem gradient_lookup_total (g : Gradient) (t : f64)
  (f : Colour -> Colour -> f64 -> Colour) :
  (g <> [] ->
     (exists p, Gradient.subgradient g t = Some p) /\
     (exists c, Gradient.interpolate g t f = Some c) /\
     (exists c, Gradient.sample g t = Some c) /\
     (exists c, Gradient.select g t = Some c) /\
     (exists c, Gradient.select_upper g t = Some c)) /\
  (g = [] ->
     Gradient.subgradient g t = None /\ Gradient.interpolate g t f = None /\
     Gradient.sample g t = None /\ Gradient.select g t = None /\
     Gradient.select_upper g t = None).
Proof.
  assert (Hsub : g <> [] -> exists p, Gradient.subgradient g t = Some p).
  { intros Hne. unfold Gradient.subgradient.
    destruct (Gradient.scan_find None g t) as [p|]; [eauto|].
    destruct (vec_last_some g Hne) as [l ->]. eexists; reflexivity. }
  split.
  - intros Hne. destruct (Hsub Hne) as [[[t1 c1] [t2 c2]] Hp].
    unfold Gradient.sample, Gradient.interpolate, Gradient.select, Gradient.select_upper.
    rewrite Hp. repeat split; eexists; reflexivity.
  - intros ->. repeat split.
Qed.

Lemma gradient_lookup_total_witness :
  exists c, Gradient.sample Examples.test_gradient (of_frac 6 10) = Some c.
Proof.
  refine (proj1 (proj2 (proj2 (proj1
    (gradient_lookup_total Examples.test_gradient (of_frac 6 10)
       Gradient.sample_interpolator) _)))).
  discriminate.
Defined.

(** C9 (as amended): queried exactly at the position of a stop that has
    a successor, [subgradient] brackets it with that successor and
    [local_t] is forced to [1.0]: [interpolate] returns
    [interpolator(own, next, 1.0)], [select_upper] the next colour, and
    [sample] the lerp [own + (next - own) * 1.0] (alpha likewise). *)
Theorem interpolate_at_stop (g : Gradient) (i : nat) (pi pn : f64) (ci cn : Colour)
  (f : Colour -> Colour -> f64 -> Colour) :
  Gradient.sorted g = true ->
  nth_error g i = Some (pi, ci) -> nth_error g (S i) = Some (pn, cn) ->
  Gradient.subgradient g pi = Some ((pi, ci), (pn, cn)) /\
  Gradient.interpolate g pi f = Some (f ci cn one) /\
  Gradient.select_upper g pi = Some cn /\
  Gradient.sample g pi = Some (Gradient.sample_interpolator ci cn one).
Proof.
  intros Hs Hi Hn.
  assert (Hsub : Gradient.subgradient g pi = Some ((pi, ci), (pn, cn))).
  { unfold Gradient.subgradient.
    rewrite (scan_find_at None g pi (S i) (pn, cn) Hn).
    - now rewrite Hi.
    - rewrite gtb_ltb. exact (sorted_nth_lt g i (S i) _ _ Hs ltac:(lia) Hi Hn).
    - intros j s' Hj Hs'. rewrite gtb_ltb.
      destruct (Nat.eq_dec j i) as [->|Hne].
      + rewrite Hi in Hs'. injection Hs' as <-. apply ltb_irrefl.
      + pose proof (sorted_nth_lt g j i _ _ Hs ltac:(lia) Hs' Hi) as Hlt.
        destruct (F64.ltb pi (fst s')) eqn:E; [|reflexivity].
        pose proof (ltb_trans _ _ _ Hlt E). rewrite ltb_irrefl in *. discriminate. }
  assert (Hint : forall f', Gradient.interpolate g pi f' = Some (f' ci cn one)).
  { intros f'. unfold Gradient.interpolate. rewrite Hsub.
    now rewrite div_sub_self_not_normal. }
  split; [exact Hsub|]. split; [apply Hint|]. split.
  - unfold Gradient.select_upper. now rewrite Hsub.
  - apply Hint.
Qed.

Lemma interpolate_at_stop_witness :
  Gradient.sorted Examples.test_gradient = true /\
  Gradient.select_upper Examples.test_gradient (of_frac 5 10) = Some (Colour.solid zero one zero).
Proof.
  split; [vm_compute; reflexivity|].
  refine (proj1 (proj2 (proj2 (interpolate_at_stop Examples.test_gradient 0
            (of_frac 5 10) (of_frac 7 10) (Colour.solid one zero zero)
            (Colour.solid zero one zero) Gradient.sample_interpolator _ _ _)))).
  all: vm_compute; reflexivity.
Defined.

(** C9 (as stated) fails: [sample] at a stop is a floating-point lerp
    with [t = 1.0], [1.0 + (2^-60 - 1.0) * 1.0 = 0.0], not the next
    stop's [2^-60]. *)
Lemma sample_at_stop_counterexample :
  ~ (forall (g : Gradient) (i : nat) (pi pn : f64) (ci cn : Colour),
      Gradient.sorted g = true ->
      nth_error g i = Some (pi, ci) -> nth_error g (S i) = Some (pn, cn) ->
      Gradient.sample g pi = Some cn /\
      (forall f, Gradient.interpolate g pi f = Some cn)).
Proof.
  intros H.
  destruct (H Examples.fading 0 zero one (Colour.grey one) (Colour.grey Examples.tiny)
              eq_refl eq_refl eq_refl) as [Hs _].
  vm_compute in Hs. discriminate.
Qed.

(** C6 (as amended): on a gradient with strictly ascending, non-NaN
    positions, [insert] at a non-NaN position keeps that invariant; when
    a stop sits exactly at the position only its colour is replaced
    (positions and length unchanged), otherwise the new stop goes after
    every stop before the position and before every stop after it,
    growing the gradient by one.  On every gradient a NaN position is
    inserted at the front, which breaks the order of a non-empty one. *)
Theorem insert_preserves_order :
  (forall (g : Gradient) (t : f64) (c : Colour),
   Gradient.sorted g = true -> Gradient.no_nan_positions g = true -> is_nan t = false ->
   exists g', Gradient.insert g t c = Some g' /\
    Gradient.sorted g' = true /\ Gradient.no_nan_positions g' = true /\
    ((exists s, In s g /\ F64.eqb (fst s) t = true) ->
       g' = map (replace_at t c) g /\ map fst g' = map fst g /\ length g' = length g) /\
    ((forall s, In s g -> F64.eqb (fst s) t = false) ->
       length g' = S (length g) /\
       exists l1 l2, g = l1 ++ l2 /\ g' = l1 ++ (t, c) :: l2 /\
         (forall s, In s l1 -> F64.ltb (fst s) t = true) /\
         (forall s, In s l2 -> F64.ltb t (fst s) = true))) /\
  (forall (g : Gradient) (t : f64) (c : Colour),
   is_nan t = true ->
   Gradient.insert g t c = Some ((t, c) :: g) /\
   (g <> [] -> Gradient.sorted ((t, c) :: g) = false)).
Proof.
  split.
  - intros g t c Hs Hn Ht.
    destruct (insert_spec g t c Hs Hn Ht) as (g' & Hi & Hs' & Hn' & _ & HA & HB).
    exists g'. split; [exact Hi|]. split; [exact Hs'|]. split; [exact Hn'|]. split.
    + intros Heq. rewrite (HA Heq). split; [reflexivity|split].
      * rewrite map_map. apply map_ext. intros [p c0]. unfold replace_at.
        simpl. destruct (F64.eqb p t); reflexivity.
      * apply length_map.
    + intros Hne. destruct (HB Hne) as (l1 & l2 & -> & -> & H1 & H2). split.
      * rewrite !length_app. simpl. lia.
      * exists l1, l2. auto.
  - intros g t c Ht.
    destruct t as [st|st| |st mt et]; try discriminate Ht.
    destruct g as [|[v cv] l].
    + split; [reflexivity|]. intros H. now destruct H.
    + split.
      * rewrite insert_cons_not_lt by (destruct v; reflexivity).
        simpl. now destruct v.
      * intros _. rewrite sorted_cons_eq. simpl. now destruct v.
Qed.

Lemma insert_preserves_order_witness :
  Gradient.insert Examples.test_gradient (of_frac 3 10) (Colour.grey half) =
    Some ((of_frac 3 10, Colour.grey half) :: Examples.test_gradient) /\
  exists g', Gradient.insert Examples.test_gradient (of_frac 3 10) (Colour.grey half) = Some g' /\
             Gradient.sorted g' = true.
Proof.
  split; [vm_compute; reflexivity|].
  destruct (proj1 insert_preserves_order Examples.test_gradient (of_frac 3 10) (Colour.grey half))
    as (g' & H1 & H2 & _); [vm_compute; reflexivity..|].
  exists g'. split; assumption.
Defined.

(** C6 (as stated) fails for a NaN position: [NaN < v] is false for
    every stop, so the NaN stop is inserted in front and the positions
    are no longer ascending. *)
Lemma insert_nan_counterexample :
  Gradient.insert [(half, Colour.red one)] nan Colour.transparent =
    Some [(nan, Colour.transparent); (half, Colour.red one)] /\
  ~ (forall (g : Gradient) (t : f64) (c : Colour),
       Gradient.sorted g = true ->
       exists g', Gradient.insert g t c = Some g' /\ Gradient.sorted g' = true).
Proof.
  split; [vm_compute; reflexivity|].
  intros H. destruct (H [(half, Colour.red one)] nan Colour.transparent eq_refl)
    as (g' & Hi & Hs).
  vm_compute in Hi. injection Hi as <-. vm_compute in Hs. discriminate.
Qed.

(** C1 (as amended): [cleaned] and the in-place [clean] replace every
    channel, alpha included, that is not a normal float (NaN, infinite,
    subnormal, or a zero of either sign) with [1.0] and keep every normal
    value; so [transparent().cleaned()] is [(1, 1, 1, 1)] and
    [grey(0.5) / 0.0] cleans to [grey(1.0)]. *)
Theorem cleaned_maps_zero_to_one :
  (forall c, Colour.clean c = Colour.cleaned c) /\
  (forall v, Colour.clean_value v = if is_normal v then v else one) /\
  Colour.cleaned Colour.transparent = Colour.new one one one one /\
  Colour.cleaned (Colour.div_f (Colour.grey half) zero) = Colour.grey one.
Proof.
  split; [intros [r0 g0 b0 a0]; reflexivity|].
  split; [intros v; unfold Colour.clean_value; now destruct (is_normal v)|].
  split; vm_compute; reflexivity.
Qed.

(** C1 (as stated) fails on an exact [0.0]: it is not a normal float, so
    [cleaned] maps it to [1.0] instead of keeping it. *)
Lemma cleaned_zero_counterexample :
  Colour.clean_value zero = one /\ Colour.cleaned Colour.transparent <> Colour.transparent.
Proof. split; vm_compute; [reflexivity|discriminate]. Qed.

(** C2: [blend] returns alpha [l.a + b.a * (1 - l.a)] and RGB channels
    [(blended * l.a + base * b.a * (1 - l.a)) / out_alpha], [blended]
    being the cleaned channel blend of the mode; the quotient is not
    cleaned, so a zero [out_alpha] yields NaN channels. *)
Theorem blend_composites (base layer : Colour) (m : BlendMode) :
  let blended := Colour.cleaned (Colour.blend_raw base layer m) in
  let out_alpha := add (a layer) (mul (a base) (sub one (a layer))) in
  let ch := fun (bl x : f64) =>
    div (add (mul bl (a layer)) (mul (mul x (a base)) (sub one (a layer)))) out_alpha in
  Colour.blend base layer m =
    Colour.new (ch (r blended) (r base)) (ch (g blended) (g base))
               (ch (b blended) (b base)) out_alpha /\
  Colour.blend Colour.transparent Colour.transparent m = Colour.new nan nan nan zero.
Proof.
  split; [reflexivity|]. destruct m; vm_compute; reflexivity.
Qed.

(** C3 (code defect): the [HardLight] arm is a whole [blend] call, so its
    channel phase already composites the base over the blend layer; for
    the base [(1, 0, 0, 0.5)] under an opaque [grey(0.2)] the result is
    about [(0.3, 0.6, 0.6, 1)], where the swapped [Overlay] formula
    gives [(0.4, 1, 1, 1)]. *)
Theorem hardlight_composites_twice :
  (forall base layer,
     Colour.blend base layer HardLight =
     Colour.composite base layer (Colour.cleaned (Colour.blend layer base Overlay))) /\
  Colour.blend (Colour.new one zero zero half) (Colour.grey (of_frac 2 10)) HardLight =
    Colour.new (div (add (of_frac 2 10) (of_frac 1 10)) one) (of_frac 6 10)
               (of_frac 6 10) one /\
  hardlight_as_specified (Colour.new one zero zero half) (Colour.grey (of_frac 2 10)) =
    Colour.new (of_frac 4 10) one one one /\
  Colour.blend (Colour.new one zero zero half) (Colour.grey (of_frac 2 10)) HardLight <>
  hardlight_as_specified (Colour.new one zero zero half) (Colour.grey (of_frac 2 10)).
Proof.
  split; [reflexivity|].
  split; [vm_compute; reflexivity|].
  split; [vm_compute; reflexivity|].
  vm_compute. discriminate.
Qed.

(** C4 (code defect): [lerp(a, b, t)] is [a + (b - a) * t] on R, G and B
    only; its alpha stays [a]'s, since the colour operators keep the alpha
    of their left colour operand, where the interpolation between two
    colours is documented to include alpha. *)
Theorem lerp_channels (x y : Colour) (t : f64) :
  Colour.lerp x y t =
    Colour.new (add (r x) (mul (sub (r y) (r x)) t))
               (add (g x) (mul (sub (g y) (g x)) t))
               (add (b x) (mul (sub (b y) (b x)) t))
               (a x).
Proof. reflexivity. Qed.

(** C4 fails on alpha: [lerp(transparent, grey(1), 0.5)] has
    alpha [0], not [0 + (1 - 0) * 0.5 = 0.5]. *)
Lemma lerp_alpha_counterexample :
  a (Colour.lerp Colour.transparent (Colour.grey one) half) = zero /\
  a (Colour.lerp Colour.transparent (Colour.grey one) half) <>
    add (a Colour.transparent) (mul (sub (a (Colour.grey one)) (a Colour.transparent)) half).
Proof. split; vm_compute; [reflexivity|discriminate]. Qed.

(** C10: an RGB channel of the mode's channel blend that is exactly
    [0.0] (of either sign) enters the compositing step as [1.0]; so
    [red(1.0)] blended with [grey(0.5)] by [Multiply] is
    [(0.5, 1.0, 1.0, 1.0)]. *)
Theorem blend_zero_channel_becomes_one (base layer : Colour) (m : BlendMode) (s : bool) :
  Colour.blend base layer m =
    Colour.composite base layer (Colour.cleaned (Colour.blend_raw base layer m)) /\
  (r (Colour.blend_raw base layer m) = S754_zero s ->
     r (Colour.cleaned (Colour.blend_raw base layer m)) = one) /\
  (g (Colour.blend_raw base layer m) = S754_zero s ->
     g (Colour.cleaned (Colour.blend_raw base layer m)) = one) /\
  (b (Colour.blend_raw base layer m) = S754_zero s ->
     b (Colour.cleaned (Colour.blend_raw base layer m)) = one) /\
  Colour.blend (Colour.red one) (Colour.grey half) Multiply = Colour.new half one one one.
Proof.
  split; [reflexivity|].
  unfold Colour.cleaned, Colour.map_rgba, Colour.new, Colour.clean_value; simpl.
  split; [intros ->; destruct s; reflexivity|].
  split; [intros ->; destruct s; reflexivity|].
  split; [intros ->; destruct s; reflexivity|].
  vm_compute. reflexivity.
Qed.

Lemma blend_zero_channel_becomes_one_witness :
  g (Colour.blend_raw (Colour.red one) (Colour.grey half) Multiply) = S754_zero false /\
  g (Colour.cleaned (Colour.blend_raw (Colour.red one) (Colour.grey half) Multiply)) = one.
Proof.
  split; [vm_compute; reflexivity|].
  apply (proj1 (proj2 (proj2 (blend_zero_channel_becomes_one (Colour.red one)
                                (Colour.grey half) Multiply false)))).
  vm_compute. reflexivity.
Defined.
(** C8 (as it holds): compositing a base colour of alpha 1 with
    [Colour::transparent()] gives back the base's R, G and B, except that
    a negative zero comes back as +0.0, and alpha 1.  So
    [base.compose(Colour::transparent()) == base] holds exactly when no
    channel of [base] is NaN. *)
Theorem compose_transparent (base : Colour) :
  valid (r base) = true -> valid (g base) = true -> valid (b base) = true ->
  a base = one ->
  Colour.compose base Colour.transparent =
    Colour.new (positive_zero (r base)) (positive_zero (g base))
               (positive_zero (b base)) one /\
  (colour_eqb (Colour.compose base Colour.transparent) base = true <->
     is_nan (r base) = false /\ is_nan (g base) = false /\ is_nan (b base) = false).
Proof.
  destruct base as [r0 g0 b0 a0]; cbn [r g b a]. intros Hr Hg Hb ->.
  assert (Hc : Colour.clean_value zero = one) by (vm_compute; reflexivity).
  assert (Hm : mul one zero = zero) by (vm_compute; reflexivity).
  assert (Hs : sub one zero = one) by (vm_compute; reflexivity).
  assert (Ha : add zero (mul one one) = one) by (vm_compute; reflexivity).
  assert (Heq : Colour.compose (mkColour r0 g0 b0 one) Colour.transparent =
    Colour.new (positive_zero r0) (positive_zero g0) (positive_zero b0) one).
  { unfold Colour.compose, Colour.blend, Colour.composite.
    cbn [Colour.blend_raw].
    unfold Colour.with_alpha, Colour.div_f, Colour.add_c, Colour.mul_f,
      Colour.cleaned, Colour.map_rgba, Colour.transparent, Colour.new.
    cbn [r g b a].
    rewrite Hs, Ha, Hc, Hm, !(mul_one r0 Hr), !(mul_one g0 Hg), !(mul_one b0 Hb),
      !add_zero_l, (div_one _ (valid_positive_zero r0 Hr)),
      (div_one _ (valid_positive_zero g0 Hg)), (div_one _ (valid_positive_zero b0 Hb)).
    reflexivity. }
  split; [exact Heq|]. rewrite Heq. unfold colour_eqb, Colour.new. cbn [r g b a].
  rewrite !eqb_positive_zero.
  change (F64.eqb one one) with true. rewrite andb_true_r.
  destruct (is_nan r0), (is_nan g0), (is_nan b0); simpl; intuition congruence.
Qed.

Lemma compose_transparent_witness :
  valid half = true /\ valid zero = true /\ valid one = true /\
  a (Colour.solid half zero one) = one /\
  Colour.compose (Colour.solid half zero one) Colour.transparent =
    Colour.new (positive_zero half) (positive_zero zero) (positive_zero one) one.
Proof.
  assert (H1 : valid half = true) by (vm_compute; reflexivity).
  assert (H2 : valid zero = true) by (vm_compute; reflexivity).
  assert (H3 : valid one = true) by (vm_compute; reflexivity).
  assert (H4 : a (Colour.solid half zero one) = one) by reflexivity.
  split; [exact H1|]. split; [exact H2|]. split; [exact H3|]. split; [exact H4|].
  exact (proj1 (compose_transparent (Colour.solid half zero one) H1 H2 H3 H4)).
Defined.

(** C8 fails as stated: a NaN channel makes [==] false, and a negative
    zero channel comes back as +0.0. *)
Lemma compose_transparent_counterexample :
  colour_eqb (Colour.compose (Colour.solid nan zero zero) Colour.transparent)
             (Colour.solid nan zero zero) = false /\
  Colour.compose (Colour.solid (S754_zero true) zero zero) Colour.transparent <>
    Colour.solid (S754_zero true) zero zero.
Proof.
  split; [vm_compute; reflexivity|]. vm_compute. congruence.
Qed.

End Claims.

(** * Further properties of the code *)

Module Extras.
Import F64Facts GradientFacts F64Arith Colour Conversions ColourFacts.

(** [clamped] and the in-place [clamp] agree; they keep NaN channels NaN,
    bring every other channel into [0, 1], and leave a colour unchanged
    exactly when each channel is NaN or already in [0, 1]. *)
Theorem clamped_unit_range (c : Colour) :
  Colour.clamp c = clamped c /\
  all_rgba (clamped c) unit_or_nan = true /\
  all_rgba_with c (clamped c) (fun x y => Bool.eqb (is_nan x) (is_nan y)) = true /\
  (clamped c = c <-> all_rgba c unit_or_nan = true).
Proof.
  split; [destruct c; reflexivity|].
  split; [apply clamped_unit|].
  split.
  - unfold all_rgba_with, all_with, clamped, map_rgba, new. simpl.
    rewrite !clamp_nan, !eqb_reflx. reflexivity.
  - split; [intros H; rewrite <- H; apply clamped_unit|apply clamped_id].
Qed.

(** [normalised] (and [normalise]) leaves a colour whose channels are all
    NaN or in [0, 1] unchanged; in particular it leaves every clamped
    colour unchanged. *)
Theorem normalised_keeps_unit_colours :
  (forall c, all_rgba c unit_or_nan = true -> normalised c = c) /\
  (forall c, normalised (clamped c) = clamped c).
Proof.
  split.
  - intros c H. exact (normalise_id c H).
  - intros c. apply normalise_id, clamped_unit.
Qed.

(** [max_channel] and [min_channel] return one of the four channels; that
    channel is at least (at most) every non-NaN channel, and it is NaN
    only when all four channels are NaN. *)
Theorem max_min_channel (c : Colour) :
  In (max_channel c) (channels c) /\ In (min_channel c) (channels c) /\
  (forall v, In v (channels c) -> is_nan v = false ->
     F64.leb v (max_channel c) = true /\ F64.leb (min_channel c) v = true) /\
  is_nan (max_channel c) = is_nan (r c) && (is_nan (g c) && (is_nan (b c) && is_nan (a c))) /\
  is_nan (min_channel c) = is_nan (r c) && (is_nan (g c) && (is_nan (b c) && is_nan (a c))).
Proof.
  unfold max_channel, min_channel, channels.
  split.
  { destruct (max_cases (r c) (F64.max (g c) (F64.max (b c) (a c)))) as [->| ->]; [now left|].
    destruct (max_cases (g c) (F64.max (b c) (a c))) as [->| ->]; [right; now left|].
    destruct (max_cases (b c) (a c)) as [->| ->]; [do 2 right; now left|do 3 right; now left]. }
  split.
  { destruct (min_cases (r c) (F64.min (g c) (F64.min (b c) (a c)))) as [->| ->]; [now left|].
    destruct (min_cases (g c) (F64.min (b c) (a c))) as [->| ->]; [right; now left|].
    destruct (min_cases (b c) (a c)) as [->| ->]; [do 2 right; now left|do 3 right; now left]. }
  split; [|rewrite !max_nan, !min_nan; split; reflexivity].
  intros v Hin Hv. simpl in Hin.
  destruct Hin as [<-|[<-|[<-|[<-|[]]]]]; split.
  - now apply max_ge_l.
  - now apply min_le_l.
  - apply max_ge_trans. now apply max_ge_l.
  - apply min_le_trans. now apply min_le_l.
  - apply max_ge_trans, max_ge_trans. now apply max_ge_l.
  - apply min_le_trans, min_le_trans. now apply min_le_l.
  - apply max_ge_trans, max_ge_trans. now apply max_ge_r.
  - apply min_le_trans, min_le_trans. now apply min_le_r.
Qed.

(** Converting bytes to a colour and back is the identity:
    [from_u8(r, g, b).as_u8() == (r, g, b)] and
    [from_u8_rgba(r, g, b, a).as_u8_rgba() == (r, g, b, a)]. *)
Theorem from_u8_as_u8_roundtrip (r0 g0 b0 a0 : Z) :
  (0 <= r0 < 256)%Z -> (0 <= g0 < 256)%Z -> (0 <= b0 < 256)%Z -> (0 <= a0 < 256)%Z ->
  as_u8 (from_u8 r0 g0 b0) = (r0, g0, b0) /\
  as_u8_rgba (from_u8_rgba r0 g0 b0 a0) = (r0, g0, b0, a0).
Proof.
  intros Hr Hg Hb Ha. unfold as_u8, as_u8_rgba, from_u8_rgba, from_u8, with_alpha, solid, new.
  simpl. rewrite !u8_roundtrip by assumption. split; reflexivity.
Qed.

Lemma from_u8_as_u8_roundtrip_witness :
  (0 <= 0 < 256)%Z /\ (0 <= 128 < 256)%Z /\ (0 <= 255 < 256)%Z /\ (0 <= 7 < 256)%Z /\
  as_u8_rgba (from_u8_rgba 0 128 255 7) = (0, 128, 255, 7)%Z.
Proof.
  split; [lia|]. split; [lia|]. split; [lia|]. split; [lia|].
  exact (proj2 (from_u8_as_u8_roundtrip 0 128 255 7 ltac:(lia) ltac:(lia) ltac:(lia) ltac:(lia))).
Defined.

(** [TryFrom<&[u8]>] and [TryFrom<Vec<u8>>] reject the same lengths with
    the same messages; three bytes come back through [Into<Vec<u8>>] with
    alpha 255, four bytes come back unchanged. *)
Theorem try_from_u8s_roundtrip :
  (forall l, (4 < length l)%nat -> try_from_u8s l = Err too_many) /\
  (forall l, (length l < 3)%nat -> try_from_u8s l = Err not_enough) /\
  (forall r0 g0 b0, (0 <= r0 < 256)%Z -> (0 <= g0 < 256)%Z -> (0 <= b0 < 256)%Z ->
     try_from_u8s [r0; g0; b0] = Ok (from_u8 r0 g0 b0) /\
     into_vec_u8 (from_u8 r0 g0 b0) = [r0; g0; b0; 255%Z]) /\
  (forall r0 g0 b0 a0, (0 <= r0 < 256)%Z -> (0 <= g0 < 256)%Z -> (0 <= b0 < 256)%Z ->
     (0 <= a0 < 256)%Z ->
     try_from_u8s [r0; g0; b0; a0] = Ok (from_u8_rgba r0 g0 b0 a0) /\
     into_vec_u8 (from_u8_rgba r0 g0 b0 a0) = [r0; g0; b0; a0]).
Proof.
  split; [intros l H; unfold try_from_u8s; now rewrite (proj2 (Nat.ltb_lt _ _) H)|].
  split.
  { intros l H. unfold try_from_u8s.
    rewrite (proj2 (Nat.ltb_ge 4 (length l)) ltac:(lia)), (proj2 (Nat.ltb_lt (length l) 3) H). reflexivity. }
  split.
  - intros r0 g0 b0 Hr Hg Hb. split; [reflexivity|].
    unfold into_vec_u8, as_u8_rgba, from_u8, solid, new. simpl.
    rewrite !u8_roundtrip by assumption. reflexivity.
  - intros r0 g0 b0 a0 Hr Hg Hb Ha. split; [reflexivity|].
    unfold into_vec_u8. rewrite (proj2 (from_u8_as_u8_roundtrip_helper r0 g0 b0 a0 Hr Hg Hb Ha)).
    reflexivity.
Qed.

(** [Indexed] colours of ratatui: with overflow checks, [from] panics for
    the indices 2 to 6 and 10 to 15, and succeeds for every other index.
    For 2 to 6 the product [(i & 4) * 255] or [(i & 2) * 255] overflows;
    for 12 to 15 the product [(i & 4) * 127 = 508] overflows; for 10 and
    11 the products fit, but [254 + 0b10000000] overflows. *)
Theorem from_color_indexed_panics (i : Z) :
  (0 <= i < 256)%Z ->
  (from_color (Indexed i) = None <-> ((2 <= i <= 6) \/ (10 <= i <= 15))%Z) /\
  ((2 <= i <= 6)%Z -> u8_mul (Z.land i 4) 255 = None \/ u8_mul (Z.land i 2) 255 = None) /\
  ((12 <= i <= 15)%Z -> u8_mul (Z.land i 4) 127 = None) /\
  ((10 <= i <= 11)%Z ->
     u8_mul (Z.land i 4) 127 = Some 0%Z /\ u8_mul (Z.land i 2) 127 = Some 254%Z /\
     u8_add 254 128 = None).
Proof.
  intros Hi. split; [|split; [|split]].
  2:{ intros H. assert (i = 2 \/ i = 3 \/ i = 4 \/ i = 5 \/ i = 6)%Z as E by lia.
      destruct E as [->|[->|[->|[->| ->]]]]; vm_compute; auto. }
  2:{ intros H. assert (i = 12 \/ i = 13 \/ i = 14 \/ i = 15)%Z as E by lia.
      destruct E as [->|[->|[->| ->]]]; reflexivity. }
  2:{ intros H. assert (i = 10 \/ i = 11)%Z as E by lia.
      destruct E as [-> | ->]; (split; [|split]); reflexivity. }
  assert (E : Bool.eqb (match from_color (Indexed i) with None => true | Some _ => false end)
                       (((2 <=? i) && (i <=? 6)) || ((10 <=? i) && (i <=? 15)))%Z = true).
  { revert i Hi. apply forall_bytes. vm_compute. reflexivity. }
  apply Bool.eqb_prop in E.
  destruct (from_color (Indexed i)); split; intros H.
  - discriminate H.
  - exfalso. symmetry in E. apply Bool.orb_false_elim in E as [E1 E2].
    destruct H as [H|H].
    + rewrite (proj2 (Z.leb_le 2 i) ltac:(lia)), (proj2 (Z.leb_le i 6) ltac:(lia)) in E1.
      discriminate E1.
    + rewrite (proj2 (Z.leb_le 10 i) ltac:(lia)), (proj2 (Z.leb_le i 15) ltac:(lia)) in E2.
      discriminate E2.
  - symmetry in E. apply Bool.orb_true_elim in E as [E|E];
      apply andb_prop in E as [E1 E2]; apply Z.leb_le in E1, E2; lia.
  - reflexivity.
Qed.

Lemma from_color_indexed_panics_witness :
  (0 <= 4 < 256)%Z /\ from_color (Indexed 4) = None.
Proof.
  split; [lia|].
  exact (proj2 (proj1 (from_color_indexed_panics 4 ltac:(lia))) ltac:(lia)).
Defined.

(** The 256-colour palette of [Indexed]: the indices 16 to 231 map to the
    6x6x6 cube with components [51 * k], and the indices 232 to 255 to the
    grey ramp [8 + 10 * (index - 232)], read back exactly by [as_u8]. *)
Theorem from_color_indexed_palette (i : Z) :
  (16 <= i < 256)%Z ->
  option_map as_u8 (from_color (Indexed i)) =
    Some (if (i <? 232)%Z
          then (51 * ((i - 16) / 36), 51 * (((i - 16) mod 36) / 6), 51 * ((i - 16) mod 6))
          else (8 + 10 * (i - 232), 8 + 10 * (i - 232), 8 + 10 * (i - 232)))%Z.
Proof.
  intros Hi.
  assert (E : (i <? 16)%Z || match option_map as_u8 (from_color (Indexed i)) with
    | Some (x, y, z) =>
        let '(x', y', z') :=
          if (i <? 232)%Z
          then (51 * ((i - 16) / 36), 51 * (((i - 16) mod 36) / 6), 51 * ((i - 16) mod 6))%Z
          else (8 + 10 * (i - 232), 8 + 10 * (i - 232), 8 + 10 * (i - 232))%Z in
        (x =? x')%Z && (y =? y')%Z && (z =? z')%Z
    | None => false end = true).
  { assert (H0 : (0 <= i < 256)%Z) by lia. clear Hi. revert i H0. apply forall_bytes. vm_compute. reflexivity. }
  rewrite (proj2 (Z.ltb_ge i 16) ltac:(lia)) in E. cbn [orb] in E.
  destruct (option_map as_u8 (from_color (Indexed i))) as [[[x y] z]|]; [|discriminate E].
  destruct (i <? 232)%Z;
    repeat match goal with H : _ && _ = true |- _ => apply andb_prop in H as [? ?] end;
    repeat match goal with H : (_ =? _)%Z = true |- _ => apply Z.eqb_eq in H end;
    subst; reflexivity.
Qed.

Lemma from_color_indexed_palette_witness :
  (16 <= 100 < 256)%Z /\ option_map as_u8 (from_color (Indexed 100)) = Some (102, 102, 0)%Z.
Proof.
  split; [lia|].
  rewrite (from_color_indexed_palette 100 ltac:(lia)). reflexivity.
Defined.

(** [Rgb(r, g, b)] converted to a [Colour] and back with [Into] gives the
    same [Rgb(r, g, b)]. *)
Theorem ratatui_rgb_roundtrip (r0 g0 b0 : Z) :
  (0 <= r0 < 256)%Z -> (0 <= g0 < 256)%Z -> (0 <= b0 < 256)%Z ->
  option_map into_color (from_color (Rgb r0 g0 b0)) = Some (Rgb r0 g0 b0).
Proof.
  intros Hr Hg Hb. simpl. unfold into_color.
  rewrite (proj1 (from_u8_as_u8_roundtrip_helper r0 g0 b0 0 Hr Hg Hb ltac:(lia))).
  reflexivity.
Qed.

Lemma ratatui_rgb_roundtrip_witness :
  (0 <= 12 < 256)%Z /\ (0 <= 200 < 256)%Z /\ (0 <= 255 < 256)%Z /\
  option_map into_color (from_color (Rgb 12 200 255)) = Some (Rgb 12 200 255).
Proof.
  split; [lia|]. split; [lia|]. split; [lia|].
  exact (ratatui_rgb_roundtrip 12 200 255 ltac:(lia) ltac:(lia) ltac:(lia)).
Defined.

(** [blend] of two opaque colours in the modes [Normal], [Darken] and
    [Lighten] (base with finite RGB) is just the cleaned blended colour:
    the alpha compositing step changes nothing.  For [compose] this is
    [layer.cleaned()]. *)
Theorem blend_opaque (base layer : Colour) (m : BlendMode) :
  (m = Normal \/ m = Darken \/ m = Lighten) ->
  a base = one -> a layer = one ->
  valid (r base) = true -> valid (g base) = true -> valid (b base) = true ->
  is_finite (r base) = true -> is_finite (g base) = true -> is_finite (b base) = true ->
  valid (r layer) = true -> valid (g layer) = true -> valid (b layer) = true ->
  blend base layer m = cleaned (blend_raw base layer m).
Proof.
  intros Hm Ha Hla Hr Hg Hb Fr Fg Fb Vr Vg Vb. unfold blend.
  apply composite_opaque; try assumption;
    destruct Hm as [-> | [-> | ->]]; simpl; try assumption;
    match goal with
    | |- valid (F64.min ?x ?y) = true => destruct (min_cases x y) as [-> | ->]; assumption
    | |- valid (F64.max ?x ?y) = true => destruct (max_cases x y) as [-> | ->]; assumption
    end.
Qed.

Lemma blend_opaque_witness :
  (Normal = Normal \/ Normal = Darken \/ Normal = Lighten) /\
  blend (solid one zero zero) (solid zero zero zero) Normal = solid one one one.
Proof.
  split; [now left|].
  rewrite (blend_opaque (solid one zero zero) (solid zero zero zero) Normal
             ltac:(now left) eq_refl eq_refl eq_refl eq_refl eq_refl
             eq_refl eq_refl eq_refl eq_refl eq_refl eq_refl).
  vm_compute. reflexivity.
Defined.

(** Outside its stops a gradient returns a stop's own colour: before the
    first stop [select], [select_upper] and [sample] give the first stop's
    colour, at or after the last stop (or at NaN) the last one's;
    [sample] does so when the channels are finite, with [-0.0] read as
    [0.0]. *)
Theorem gradient_outside_stops (g : Gradient) (first last : GradientStop) (t : f64) :
  Gradient.sorted g = true -> hd_error g = Some first -> Gradient.vec_last g = Some last ->
  (F64.ltb t (fst first) = true ->
     Gradient.select g t = Some (snd first) /\ Gradient.select_upper g t = Some (snd first) /\
     (all_rgba (snd first) is_finite = true ->
      Gradient.sample g t = Some (map_rgba (snd first) positive_zero))) /\
  ((F64.leb (fst last) t = true \/ is_nan t = true) ->
     Gradient.select g t = Some (snd last) /\ Gradient.select_upper g t = Some (snd last) /\
     (all_rgba (snd last) is_finite = true ->
      Gradient.sample g t = Some (map_rgba (snd last) positive_zero))).
Proof.
  intros Hs Hh Hl. split.
  - intros Ht. destruct g as [|x rest]; [discriminate Hh|]. injection Hh as ->.
    pose proof (subgradient_first first rest t Ht) as Hsub.
    unfold Gradient.select, Gradient.select_upper. rewrite Hsub.
    split; [reflexivity|]. split; [reflexivity|]. now apply sample_pair.
  - intros Ht. pose proof (subgradient_last g last t Hs Hl Ht) as Hsub.
    unfold Gradient.select, Gradient.select_upper. rewrite Hsub.
    split; [reflexivity|]. split; [reflexivity|]. now apply sample_pair.
Qed.

Lemma gradient_outside_stops_witness :
  Gradient.sorted Examples.test_gradient = true /\
  Gradient.select Examples.test_gradient zero = Some (solid one zero zero) /\
  Gradient.select Examples.test_gradient one = Some (solid zero zero one).
Proof.
  split; [vm_compute; reflexivity|].
  pose proof (gradient_outside_stops Examples.test_gradient
                (of_frac 5 10, solid one zero zero) (of_frac 8 10, solid zero zero one) zero
                ltac:(vm_compute; reflexivity) eq_refl eq_refl) as [H1 _].
  pose proof (gradient_outside_stops Examples.test_gradient
                (of_frac 5 10, solid one zero zero) (of_frac 8 10, solid zero zero one) one
                ltac:(vm_compute; reflexivity) eq_refl eq_refl) as [_ H2].
  split.
  - exact (proj1 (H1 ltac:(vm_compute; reflexivity))).
  - exact (proj1 (H2 ltac:(left; vm_compute; reflexivity))).
Defined.

(** [insert(t, colour)] followed by [select(t)] returns [colour]: on a
    sorted gradient with no NaN position and a non-NaN [t], the inserted
    (or replaced) stop is the lower stop of [t]. *)
Theorem select_after_insert (g : Gradient) (t : f64) (c : Colour) :
  Gradient.sorted g = true -> Gradient.no_nan_positions g = true -> is_nan t = false ->
  exists g', Gradient.insert g t c = Some g' /\ Gradient.select g' t = Some c.
Proof.
  intros Hs Hn Ht. destruct (insert_scan_lower g t c Hs Hn Ht) as (g' & Hins & HQ).
  exists g'. split; [exact Hins|]. specialize (HQ None).
  unfold Gradient.select, Gradient.subgradient.
  destruct (Gradient.scan_find None g' t) as [[p q]|]; simpl; [now rewrite HQ|].
  destruct (Gradient.vec_last g') as [l|]; [simpl in *; congruence|discriminate HQ].
Qed.

Lemma select_after_insert_witness :
  Gradient.sorted Examples.test_gradient = true /\
  Gradient.no_nan_positions Examples.test_gradient = true /\
  is_nan (of_frac 6 10) = false /\
  exists g', Gradient.insert Examples.test_gradient (of_frac 6 10) (grey one) = Some g' /\
             Gradient.select g' (of_frac 6 10) = Some (grey one).
Proof.
  split; [vm_compute; reflexivity|]. split; [vm_compute; reflexivity|].
  split; [vm_compute; reflexivity|].
  exact (select_after_insert Examples.test_gradient (of_frac 6 10) (grey one)
           ltac:(vm_compute; reflexivity) ltac:(vm_compute; reflexivity)
           ltac:(vm_compute; reflexivity)).
Defined.

(** [as_u8] and [as_u8_rgba] ([(v * 255.0) as u8]) never wrap a negative
    channel around: a channel below zero, or NaN, gives the byte 0. *)
Theorem as_u8_negative_channels (c : Colour) :
  (forall x, (F64.ltb x zero = true \/ is_nan x = true) -> to_u8 (mul x (of_Z 255)) = 0%Z) /\
  (all_rgba c (fun v => F64.ltb v zero || is_nan v) = true -> as_u8_rgba c = (0, 0, 0, 0)%Z).
Proof.
  split; [exact to_u8_neg|].
  intros H. unfold all_rgba, all in H.
  repeat match goal with H : _ && _ = true |- _ => apply andb_prop in H as [? ?] end.
  repeat match goal with H : _ || _ = true |- _ => apply orb_prop in H end.
  unfold as_u8_rgba. rewrite !to_u8_neg by assumption. reflexivity.
Qed.

End Extras.

